(** * Sheet2MIDI: the conversion pipeline of [useSheetMusicProcessor]

    A shallow embedding of [src/hooks/useSheetMusicProcessor.ts] and of the
    types of [src/types/index.ts].

    The hook keeps seven pieces of React state and exposes [processFile], an
    asynchronous function that drives them through ten simulated stages.
    [processFile] never reads the state it drives: every decision comes from
    its arguments, from [Math.random], from the clock, and from the variables
    its closure captured when it was created.  The embedding therefore
    presents one call of [processFile] as the list of state updates it
    issues, in order, with the suspension points ([await]) between them; the
    hook's state after any prefix of that list is obtained by folding the
    updates over the state the call started from.

    Numbers.  A JavaScript [number] that only ever holds an integer literal
    or the result of [Math.floor] is a [Z]; the others (the time multiplier,
    times, confidences, tempo, the draws of [Math.random]) are rationals.
    The products the code forms with 1.5 and 2 are exact in binary floating
    point as well, and the floor of a note count times 0.6 or 0.4 is the
    same there as here for every count below 100000; [NaN] and the
    infinities are not represented. *)

From Stdlib Require Import ZArith QArith Qround List String Ascii Bool Lia Lqa Sorted.
From Stdlib Require Import DecimalString.
Import ListNotations.

Local Open Scope Z_scope.

(** ** JavaScript helpers *)

(** [a[i]]: [undefined] outside the array. *)
Definition array_get {A : Type} (a : list A) (i : Z) : option A :=
  if i <? 0 then None else nth_error a (Z.to_nat i).

(** [Math.floor]. *)
Definition Math_floor (x : Q) : Z := Qfloor x.

(** [x || d] on an optional number held as an integer: [undefined] and [0]
    are falsy. *)
Definition or_default_Z (x : option Z) (d : Z) : Z :=
  match x with
  | Some v => if v =? 0 then d else v
  | None => d
  end.

(** [x || d] on an optional number. *)
Definition or_default_Q (x : option Q) (d : Q) : Q :=
  match x with
  | Some v => if Qeq_bool v 0 then d else v
  | None => d
  end.

(** [String.prototype.toLowerCase], on the ASCII letters; other bytes are
    kept. *)
Definition lower_ascii (c : ascii) : ascii :=
  let n := nat_of_ascii c in
  if (65 <=? n)%nat && (n <=? 90)%nat then ascii_of_nat (n + 32) else c.

Fixpoint toLowerCase (s : string) : string :=
  match s with
  | EmptyString => EmptyString
  | String c s' => String (lower_ascii c) (toLowerCase s')
  end.

(** [s.includes(sub)]. *)
Fixpoint includes (s sub : string) : bool :=
  String.prefix sub s ||
  match s with
  | EmptyString => false
  | String _ s' => includes s' sub
  end.

(** [s.replace(/[^a-z0-9]/g, '-')]. *)
Definition is_a_z_0_9 (c : ascii) : bool :=
  let n := nat_of_ascii c in
  ((97 <=? n)%nat && (n <=? 122)%nat) || ((48 <=? n)%nat && (n <=? 57)%nat).

Fixpoint replace_non_alnum (s : string) : string :=
  match s with
  | EmptyString => EmptyString
  | String c s' =>
      String (if is_a_z_0_9 c then c else "-"%char) (replace_non_alnum s')
  end.

(** [clefs.includes(x)] on an array of strings. *)
Definition array_includes (a : list string) (x : string) : bool :=
  existsb (String.eqb x) a.

(** ** Types ([src/types/index.ts]) *)

Module Status.
Inductive t : Set :=
| idle | uploading | analyzing | processing | generating
| success | error | partial_success.

(** The states in which a job is under way; [App] computes [isProcessing]
    with the same four comparisons. *)
Definition active (s : t) : bool :=
  match s with
  | uploading | analyzing | processing | generating => true
  | _ => false
  end.

Definition terminal (s : t) : bool :=
  match s with
  | success | error | partial_success => true
  | _ => false
  end.
End Status.

Module ErrorType.
Inductive t : Set :=
| blur | notation | format | handwritten | multiple_signatures | unknown.
End ErrorType.

Module Mode.
Inductive t : Set := standard | enhanced | manual_assist.
End Mode.

Module DetectedElements.
(** [Partial<DetectedElements>]: every field may be absent.  The cast
    [detectedElements as DetectedElements] changes the static type only, so
    the value stored in a result has this shape too. *)
Record t : Type := mk {
  timeSignature : option string;
  keySignature : option string;
  tempo : option Q;
  tempoMarking : option string;
  clefs : option (list string);
  noteCount : option Z;
  measures : option Z;
  dynamics : option (list string);
  articulations : option (list string)
}.

(** [{}] *)
Definition empty : t := mk None None None None None None None None None.

(** Every field of the interface is present. *)
Definition complete (d : t) : Prop :=
  timeSignature d <> None /\ keySignature d <> None /\ tempo d <> None /\
  tempoMarking d <> None /\ clefs d <> None /\ noteCount d <> None /\
  measures d <> None /\ dynamics d <> None /\ articulations d <> None.
End DetectedElements.

Module TrackInfo.
Record t : Type := mk {
  name : string;
  instrument : string;
  clef : string;
  noteCount : Z
}.
End TrackInfo.

Module MidiMetadata.
Record t : Type := mk {
  title : string;
  composer : string;
  copyright : string;
  processingDate : string;
  software : string;
  tracks : list TrackInfo.t
}.
End MidiMetadata.

Module ProcessingResult.
Record t : Type := mk {
  fileName : string;
  midiData : list Z;
  title : string;
  composer : string;
  processingDate : string;
  confidence : Q;
  detectedElements : DetectedElements.t;
  metadata : MidiMetadata.t
}.
End ProcessingResult.

Module ProcessingError.
(** The object handed to [setError].  On the failure path it comes out of
    [JSON.parse], which is untyped: it has the fields the thrown object
    had, so [type], [message] and [suggestions] are present exactly when
    the spread entry of [errorTypes] was. *)
Record t : Type := mk {
  type : option ErrorType.t;
  message : option string;
  suggestions : option (list string);
  confidence : Q
}.
End ProcessingError.

Module ProcessingOptions.
Record t : Type := mk {
  preferredTempo : option Q;
  preferredKey : option string;
  selectedPages : option (list Z);
  processingMode : Mode.t;
  includeChords : bool;
  includeLyrics : bool;
  separateTracks : bool
}.
End ProcessingOptions.

(** The part of a DOM [File] the hook reads. *)
Module File.
Record t : Type := mk { name : string }.
End File.

(** ** The environment of one call *)

(** What [new Date()] gives at the three places the call consults it:
    [getFullYear()] (as it prints in the template literal) and the two
    [toISOString()]. *)
Record Clock : Type := mkClock {
  fullYear : string;
  metadataISO : string;
  resultISO : string
}.

(** [Math.random]: [rand k] is the value of the [k]-th call made during one
    run of [processFile], counted from 0.  The contract of [Math.random] is
    that each value lies in the half-open unit interval. *)
Definition Random : Type := nat -> Q.

Definition unit_draw (r : Q) : Prop := (0 <= r)%Q /\ (r < 1)%Q.

Definition random_ok (rand : Random) : Prop := forall k, unit_draw (rand k).

(** ** The state of the hook *)

Record HookState : Type := mkState {
  status : Status.t;
  progress : Z;
  currentStep : string;
  result : option ProcessingResult.t;
  error : option ProcessingError.t;
  estimatedTime : Q;
  detectedElements : DetectedElements.t
}.

(** The initial values given to the seven [useState] calls. *)
Definition initialState : HookState :=
  mkState Status.idle 0 "" None None 0%Q DetectedElements.empty.

(** One call of a state setter, or one suspension point.
    [setDetectedElements] takes the functional form, [prev => next]. *)
Inductive Update : Type :=
| setStatus (s : Status.t)
| setProgress (p : Z)
| setCurrentStep (s : string)
| setResult (r : option ProcessingResult.t)
| setError (e : option ProcessingError.t)
| setEstimatedTime (t : Q)
| setDetectedElements (f : DetectedElements.t -> DetectedElements.t)
| await (ms : Q).

Definition apply_update (st : HookState) (u : Update) : HookState :=
  match u with
  | setStatus s =>
      mkState s (progress st) (currentStep st) (result st) (error st)
        (estimatedTime st) (detectedElements st)
  | setProgress p =>
      mkState (status st) p (currentStep st) (result st) (error st)
        (estimatedTime st) (detectedElements st)
  | setCurrentStep s =>
      mkState (status st) (progress st) s (result st) (error st)
        (estimatedTime st) (detectedElements st)
  | setResult r =>
      mkState (status st) (progress st) (currentStep st) r (error st)
        (estimatedTime st) (detectedElements st)
  | setError e =>
      mkState (status st) (progress st) (currentStep st) (result st) e
        (estimatedTime st) (detectedElements st)
  | setEstimatedTime t =>
      mkState (status st) (progress st) (currentStep st) (result st) (error st)
        t (detectedElements st)
  | setDetectedElements f =>
      mkState (status st) (progress st) (currentStep st) (result st) (error st)
        (estimatedTime st) (f (detectedElements st))
  | await _ => st
  end.

(** The state after a list of updates. *)
Definition run (us : list Update) (st : HookState) : HookState :=
  fold_left apply_update us st.

(** The state after the first [n] updates of a call. *)
Definition state_at (us : list Update) (st : HookState) (n : nat) : HookState :=
  run (firstn n us) st.


(** ** [processFile] *)

Record Stage : Type := mkStage {
  step : string;
  duration : Z;
  stage_progress : Z
}.

Definition baseSteps : list Stage :=
  [ mkStage "Uploading and validating file..." 800 5;
    mkStage "Preprocessing and image enhancement..." 1200 15;
    mkStage "Detecting staff lines and layout..." 1500 25;
    mkStage "Identifying clefs and key signatures..." 1000 35;
    mkStage "Recognizing note heads and stems..." 2000 55;
    mkStage "Analyzing rhythmic patterns..." 1500 70;
    mkStage "Processing dynamics and articulations..." 1000 80;
    mkStage "Extracting tempo and expression marks..." 800 85;
    mkStage "Generating MIDI structure..." 1200 95;
    mkStage "Finalizing and optimizing..." 500 100 ].

(** [baseSteps[i]], used at the literal indices 0 to 9 only. *)
Definition baseStep (i : nat) : Stage := nth i baseSteps (mkStage "" 0 0).

Definition timeMultiplier (options : ProcessingOptions.t) : Q :=
  match ProcessingOptions.processingMode options with
  | Mode.enhanced => 1.5
  | Mode.manual_assist => 2
  | Mode.standard => 1
  end.

(** [baseSteps.reduce((sum, step) => sum + step.duration, 0)] *)
Definition totalNominalDuration : Z :=
  fold_left (fun sum s => sum + duration s) baseSteps 0.

Definition totalTime (options : ProcessingOptions.t) : Q :=
  inject_Z totalNominalDuration * timeMultiplier options.

(** The three statements every iteration of the three loops starts with. *)
Definition stage_run (options : ProcessingOptions.t) (i : nat) : list Update :=
  [ setCurrentStep (step (baseStep i));
    await (inject_Z (duration (baseStep i)) * timeMultiplier options);
    setProgress (stage_progress (baseStep i)) ].

(** The objects spread over [prev] by the five functional updates. *)
Definition merge_stage2 (prev : DetectedElements.t) : DetectedElements.t :=
  DetectedElements.mk
    (Some "4/4"%string) (DetectedElements.keySignature prev)
    (DetectedElements.tempo prev) (DetectedElements.tempoMarking prev)
    (Some ["Treble"; "Bass"]%string) (DetectedElements.noteCount prev)
    (DetectedElements.measures prev) (DetectedElements.dynamics prev)
    (DetectedElements.articulations prev).

Definition merge_stage3 (options : ProcessingOptions.t)
    (prev : DetectedElements.t) : DetectedElements.t :=
  DetectedElements.mk
    (DetectedElements.timeSignature prev) (Some "C Major"%string)
    (Some (or_default_Q (ProcessingOptions.preferredTempo options) 120))
    (DetectedElements.tempoMarking prev)
    (DetectedElements.clefs prev) (DetectedElements.noteCount prev)
    (DetectedElements.measures prev) (DetectedElements.dynamics prev)
    (DetectedElements.articulations prev).

Definition merge_stage5 (rand : Random) (prev : DetectedElements.t)
    : DetectedElements.t :=
  DetectedElements.mk
    (DetectedElements.timeSignature prev) (DetectedElements.keySignature prev)
    (DetectedElements.tempo prev) (DetectedElements.tempoMarking prev)
    (DetectedElements.clefs prev)
    (Some (Math_floor (rand 0%nat * 200) + 50))
    (Some (Math_floor (rand 1%nat * 32) + 16))
    (DetectedElements.dynamics prev) (DetectedElements.articulations prev).

Definition merge_stage6 (prev : DetectedElements.t) : DetectedElements.t :=
  DetectedElements.mk
    (DetectedElements.timeSignature prev) (DetectedElements.keySignature prev)
    (DetectedElements.tempo prev) (DetectedElements.tempoMarking prev)
    (DetectedElements.clefs prev) (DetectedElements.noteCount prev)
    (DetectedElements.measures prev)
    (Some ["p"; "mf"; "f"]%string) (Some ["staccato"; "legato"]%string).

Definition merge_stage7 (prev : DetectedElements.t) : DetectedElements.t :=
  DetectedElements.mk
    (DetectedElements.timeSignature prev) (DetectedElements.keySignature prev)
    (DetectedElements.tempo prev) (Some "Moderato"%string)
    (DetectedElements.clefs prev) (DetectedElements.noteCount prev)
    (DetectedElements.measures prev) (DetectedElements.dynamics prev)
    (DetectedElements.articulations prev).

(** [for (let i = lo; i <= hi; i++) body(i)] *)
Definition for_loop (lo hi : nat) (body : nat -> list Update) : list Update :=
  flat_map body (seq lo (S hi - lo)).

Definition upload_phase : list Update :=
  [ setStatus Status.uploading;
    await (inject_Z (duration (baseStep 0)));
    setProgress (stage_progress (baseStep 0)) ].

Definition analysis_phase (options : ProcessingOptions.t) : list Update :=
  setStatus Status.analyzing ::
  for_loop 1 3 (fun i =>
    stage_run options i
    ++ (if (i =? 2)%nat then [setDetectedElements merge_stage2] else [])
    ++ (if (i =? 3)%nat then [setDetectedElements (merge_stage3 options)] else [])).

Definition processing_phase (options : ProcessingOptions.t) (rand : Random)
    : list Update :=
  setStatus Status.processing ::
  for_loop 4 7 (fun i =>
    stage_run options i
    ++ (if (i =? 5)%nat then [setDetectedElements (merge_stage5 rand)] else [])
    ++ (if (i =? 6)%nat then [setDetectedElements merge_stage6] else [])
    ++ (if (i =? 7)%nat then [setDetectedElements merge_stage7] else [])).

Definition generation_phase (options : ProcessingOptions.t) : list Update :=
  setStatus Status.generating ::
  for_loop 8 9 (fun i => stage_run options i).

(** The title, composer and confidence read off the file name. *)
Record Recognition : Type := mkRecognition {
  rec_title : string;
  rec_composer : string;
  rec_confidence : Q
}.

(** The UTF-8 bytes of the letter e with acute accent. *)
Definition e_acute : string :=
  String (ascii_of_nat 195) (String (ascii_of_nat 169) EmptyString).

Definition recognize (file : File.t) : Recognition :=
  let fileName := toLowerCase (File.name file) in
  if includes fileName "amore" || includes fileName "piccioni" then
    mkRecognition "Amore Mio Aiutami" "Piero Piccioni" 0.95
  else if includes fileName "mozart" then
    mkRecognition "Piano Sonata" "Wolfgang Amadeus Mozart" 0.92
  else if includes fileName "bach" then
    mkRecognition "Two-Part Invention" "Johann Sebastian Bach" 0.90
  else if includes fileName "chopin" then
    mkRecognition "Nocturne" ("Fr" ++ e_acute ++ "d" ++ e_acute ++ "ric Chopin") 0.88
  else if includes fileName "beethoven" then
    mkRecognition "Piano Sonata" "Ludwig van Beethoven" 0.91
  else
    mkRecognition "Sheet Music" "Unknown" 0.85.

(** An entry of [errorTypes]. *)
Record ErrorTemplate : Type := mkTemplate {
  tpl_type : ErrorType.t;
  tpl_message : string;
  tpl_suggestions : list string
}.

Definition errorTypes : list ErrorTemplate :=
  [ mkTemplate ErrorType.blur
      "Image resolution too low for accurate note recognition"
      [ "Try scanning at 300 DPI or higher";
        "Ensure good lighting when photographing";
        "Use a flatbed scanner for best results" ]%string;
    mkTemplate ErrorType.notation
      "Complex notation style not fully supported"
      [ "Try using standard notation without extensive markings";
        "Consider using enhanced processing mode";
        "Manual assistance mode may help with complex scores" ]%string;
    mkTemplate ErrorType.handwritten
      "Handwritten notation detected - accuracy significantly reduced"
      [ "Use printed or engraved sheet music for best results";
        "Try enhanced processing mode for handwritten scores";
        "Consider manual correction of detected notes" ]%string ].

(** [{ ...randomError, confidence }]: spreading [undefined] adds nothing. *)
Definition spread_error (randomError : option ErrorTemplate) (confidence : Q)
    : ProcessingError.t :=
  match randomError with
  | Some e =>
      ProcessingError.mk (Some (tpl_type e)) (Some (tpl_message e))
        (Some (tpl_suggestions e)) confidence
  | None => ProcessingError.mk None None None confidence
  end.

(** What a [throw] carries to the [catch] clause.  The message of an [Error]
    is either the [JSON.stringify] of an error object, which [JSON.parse]
    turns back into an object with the same fields, or some other text, on
    which [JSON.parse] throws. *)
Inductive Message : Type :=
| JSON_stringify (e : ProcessingError.t)
| Text (s : string).

Inductive Thrown : Type :=
| new_Error (m : Message)
| NotAnError.

(** The outcome of a block: the updates it issued, and what it threw if it
    did not run to its end. *)
Definition Block : Type := (list Update * option Thrown)%type.

(** [const shouldFail = Math.random() < 0.1] and
    [const shouldPartialFail = Math.random() < 0.15]: the third and fourth
    draws of a run. *)
Definition shouldFail (rand : Random) : bool :=
  negb (Qle_bool 0.1 (rand 2%nat)).

Definition shouldPartialFail (rand : Random) : bool :=
  negb (Qle_bool 0.15 (rand 3%nat)).

(** [errorTypes[Math.floor(Math.random() * errorTypes.length)]]: the fifth
    draw of a run that fails. *)
Definition randomError (rand : Random) : option ErrorTemplate :=
  array_get errorTypes
    (Math_floor (rand 4%nat * inject_Z (Z.of_nat (List.length errorTypes)))).

(** The object thrown inside [if (shouldFail)]; its confidence comes from
    the sixth draw. *)
Definition thrown_error (rand : Random) : Thrown :=
  new_Error
    (JSON_stringify (spread_error (randomError rand) (rand 5%nat * 0.3 + 0.1))).

(** [tracks], computed from the [detectedElements] the function sees. *)
Definition tracks_of (detected : DetectedElements.t) : list TrackInfo.t :=
  let noteCount := or_default_Z (DetectedElements.noteCount detected) 100 in
  TrackInfo.mk "Treble Clef" "Piano" "Treble"
    (Math_floor (inject_Z noteCount * 0.6))
  ::
  (if match DetectedElements.clefs detected with
      | Some clefs => array_includes clefs "Bass"
      | None => false
      end
   then [ TrackInfo.mk "Bass Clef" "Piano" "Bass"
            (Math_floor (inject_Z noteCount * 0.4)) ]
   else []).

(** The UTF-8 bytes of the copyright sign. *)
Definition copyright_sign : string :=
  String (ascii_of_nat 194) (String (ascii_of_nat 169) EmptyString).

Definition metadata_of (detected : DetectedElements.t) (r : Recognition)
    (clock : Clock) : MidiMetadata.t :=
  MidiMetadata.mk (rec_title r) (rec_composer r)
    (copyright_sign ++ " " ++ fullYear clock ++ " - Processed by Sheet2MIDI")
    (metadataISO clock) "Sheet2MIDI v2.0" (tracks_of detected).

(** [new Uint8Array([...header, ...Array.from({length: 100}, () =>
    Math.floor(Math.random() * 256))])]; the draws are the fifth to the
    hundred-and-fourth of a run that did not fail.  [Uint8Array] stores
    each value modulo 256. *)
Definition mockMidiData (rand : Random) : list Z :=
  map (fun v => v mod 256)
    ([ 77; 84; 104; 100; 0; 0; 0; 6; 0; 1; 0; 2; 1; 224 ]
     ++ map (fun k => Math_floor (rand (4 + k)%nat * 256)) (seq 0 100)).

(** [finalResult], before the partial-failure branch touches it. *)
Definition finalResult (detected : DetectedElements.t) (r : Recognition)
    (clock : Clock) (rand : Random) : ProcessingResult.t :=
  ProcessingResult.mk
    (replace_non_alnum (toLowerCase (rec_title r)) ++ ".mid")
    (mockMidiData rand) (rec_title r) (rec_composer r) (resultISO clock)
    (rec_confidence r) detected (metadata_of detected r clock).

(** [finalResult.confidence = 0.65] *)
Definition set_confidence (r : ProcessingResult.t) (c : Q) : ProcessingResult.t :=
  ProcessingResult.mk
    (ProcessingResult.fileName r) (ProcessingResult.midiData r)
    (ProcessingResult.title r) (ProcessingResult.composer r)
    (ProcessingResult.processingDate r) c
    (ProcessingResult.detectedElements r) (ProcessingResult.metadata r).

(** The ten stages, from ``Upload phase'' to the end of the generation
    loop. *)
Definition stages (options : ProcessingOptions.t) (rand : Random) : list Update :=
  upload_phase ++ analysis_phase options ++ processing_phase options rand
  ++ generation_phase options.

(** What follows the stages inside [try]: recognition, the failure draw, and
    the construction and publication of the result.  [detected] is the
    variable [detectedElements] as the function sees it. *)
Definition finalize (detected : DetectedElements.t) (file : File.t)
    (clock : Clock) (rand : Random) : Block :=
  let r := recognize file in
  if shouldFail rand then ([], Some (thrown_error rand))
  else
    let final := finalResult detected r clock rand in
    if shouldPartialFail rand then
      ([ setStatus Status.partial_success;
         setResult (Some (set_confidence final 0.65)) ], None)
    else
      ([ setStatus Status.success; setResult (Some final) ], None).

(** The body of [try]. *)
Definition try_block (detected : DetectedElements.t) (file : File.t)
    (options : ProcessingOptions.t) (clock : Clock) (rand : Random) : Block :=
  let '(us, thrown) := finalize detected file clock rand in
  ([ setEstimatedTime (totalTime options) ] ++ stages options rand ++ us, thrown).

(** [errorData], as the [catch] clause computes it. *)
Definition errorData (err : Thrown) : ProcessingError.t :=
  match err with
  | new_Error (JSON_stringify e) => e
  | new_Error (Text m) =>
      ProcessingError.mk (Some ErrorType.unknown) (Some m)
        (Some [ "Try a different file"; "Check file format and quality" ]%string)
        0.1
  | NotAnError =>
      ProcessingError.mk (Some ErrorType.unknown) (Some "Unknown error occurred"%string)
        (Some [ "Try a different file"; "Check file format and quality" ]%string)
        0.1
  end.

Definition catch_block (err : Thrown) : list Update :=
  [ setError (Some (errorData err)); setStatus Status.error ].

(** The five setters called before [try]. *)
Definition prologue : list Update :=
  [ setStatus Status.uploading; setProgress 0; setError None; setResult None;
    setDetectedElements (fun _ => DetectedElements.empty) ].

(** One call of [processFile(file, options)], made through a function whose
    closure holds [detected] for the variable [detectedElements]. *)
Definition processFile (detected : DetectedElements.t) (file : File.t)
    (options : ProcessingOptions.t) (clock : Clock) (rand : Random)
    : list Update :=
  let '(us, thrown) := try_block detected file options clock rand in
  prologue ++ us ++
  match thrown with
  | Some err => catch_block err
  | None => []
  end.

(** [reset()] *)
Definition reset : list Update :=
  [ setStatus Status.idle; setProgress 0; setCurrentStep ""; setResult None;
    setError None; setEstimatedTime 0;
    setDetectedElements (fun _ => DetectedElements.empty) ].

(** ** The hook and its memoised callback *)

(** A mounted instance of the hook: its state, and the [detectedElements]
    held by the closure that [useCallback] currently returns for
    [processFile]. *)
Record Hook : Type := mkHook {
  state : HookState;
  processFile_sees : DetectedElements.t
}.

(** [useCallback(fn, deps)] on a render after the first: the stored function
    is kept unless some dependency changed; with [deps = []] none can. *)
Definition useCallback {A : Type} (stored fresh : A) (deps_changed : bool) : A :=
  if deps_changed then fresh else stored.

(** The first render: the state is initial, and the function created by this
    render, which closes over this render's [detectedElements], is stored. *)
Definition mount : Hook :=
  mkHook initialState (detectedElements initialState).

(** A later render, in state [st]: [processFile] is
    [useCallback(async (file, options) => ..., [])]. *)
Definition render (h : Hook) (st : HookState) : Hook :=
  mkHook st (useCallback (processFile_sees h) (detectedElements st) false).

(** A setter is called: the state changes and the component renders again. *)
Definition dispatch (h : Hook) (u : Update) : Hook :=
  render h (apply_update (state h) u).

(** The instances a mounted hook can be in. *)
Inductive reachable : Hook -> Prop :=
| reach_mount : reachable mount
| reach_dispatch : forall h u, reachable h -> reachable (dispatch h u).

(** The caller invokes the [processFile] the hook returned. *)
Definition submit (h : Hook) (file : File.t) (options : ProcessingOptions.t)
    (clock : Clock) (rand : Random) : list Update :=
  processFile (processFile_sees h) file options clock rand.

(** The state in which a job started from [h] ends. *)
Definition outcome (h : Hook) (file : File.t) (options : ProcessingOptions.t)
    (clock : Clock) (rand : Random) : HookState :=
  run (submit h file options clock rand) (state h).

(** ** What a call publishes *)

(** The arguments of the calls of [setProgress], in order. *)
Definition published_progress (us : list Update) : list Z :=
  flat_map (fun u => match u with setProgress p => [p] | _ => [] end) us.

(** The arguments of the calls of [setEstimatedTime], in order. *)
Definition published_estimates (us : list Update) : list Q :=
  flat_map (fun u => match u with setEstimatedTime t => [t] | _ => [] end) us.

(** The results handed to [setResult], in order. *)
Definition published_results (us : list Update) : list ProcessingResult.t :=
  flat_map (fun u => match u with setResult (Some r) => [r] | _ => [] end) us.

(** The updates of a call up to the end of its [try] block, normal or not:
    what has happened when the [catch] clause, if any, takes over. *)
Definition before_catch (h : Hook) (file : File.t)
    (options : ProcessingOptions.t) (clock : Clock) (rand : Random)
    : list Update :=
  prologue ++ fst (try_block (processFile_sees h) file options clock rand).

(** The updates of a call up to the end of the analysis loop, whose last
    iteration is the third analysis stage. *)
Definition through_analysis (options : ProcessingOptions.t) : list Update :=
  prologue ++ [ setEstimatedTime (totalTime options) ] ++ upload_phase
  ++ analysis_phase options.

(** The updates up to and including the first [setProgress(p)]. *)
Fixpoint through_progress (p : Z) (us : list Update) : list Update :=
  match us with
  | [] => []
  | setProgress q :: us' =>
      setProgress q :: (if q =? p then [] else through_progress p us')
  | u :: us' => u :: through_progress p us'
  end.

(** The state in which the progress of stage [i] has just been published. *)
Definition state_after_stage (us : list Update) (st : HookState) (i : nat)
    : HookState :=
  run (through_progress (stage_progress (baseStep i)) us) st.

(** The time estimate the hook exposes once stage [i] of a job has
    completed; [ProcessingStatus] shows it as the time remaining. *)
Definition estimate_after_stage (h : Hook) (file : File.t)
    (options : ProcessingOptions.t) (clock : Clock) (rand : Random) (i : nat)
    : Q :=
  estimatedTime (state_after_stage (submit h file options clock rand) (state h) i).

(** The sum of the nominal durations of the stages. *)
Definition sum_of_durations : Z := fold_right Z.add 0 (map duration baseSteps).

(** The multiplier of each processing mode, as the specification lists
    them. *)
Definition mode_multiplier (m : Mode.t) : Q :=
  match m with
  | Mode.standard => 1
  | Mode.enhanced => 3 # 2
  | Mode.manual_assist => 2
  end.

(** A tempo preference, when given, is a positive number. *)
Definition tempo_preference_ok (options : ProcessingOptions.t) : Prop :=
  forall p, ProcessingOptions.preferredTempo options = Some p -> (0 < p)%Q.

(** The hook after the updates [us] have been dispatched one by one. *)
Definition dispatch_all (h : Hook) (us : list Update) : Hook :=
  fold_left dispatch us h.

(** ** Statements that the code does not satisfy *)

(** The estimate goes strictly down from stage to stage and is 0 after the
    last one. *)
Definition estimate_counts_down (h : Hook) (file : File.t)
    (options : ProcessingOptions.t) (clock : Clock) (rand : Random) : Prop :=
  (forall i j, (i < j <= 9)%nat ->
     (estimate_after_stage h file options clock rand j
      < estimate_after_stage h file options clock rand i)%Q)
  /\ (estimate_after_stage h file options clock rand 9 == 0)%Q.

(** A call made while a job is under way changes nothing. *)
Definition rejected_while_active (h : Hook) (file : File.t)
    (options : ProcessingOptions.t) (clock : Clock) (rand : Random) : Prop :=
  Status.active (status (state h)) = true ->
  forall n, state_at (submit h file options clock rand) (state h) n = state h.

(** The tracks follow the elements the job detected. *)
Definition tracks_follow_detected (final : HookState) : Prop :=
  forall r clefs n,
    result final = Some r ->
    DetectedElements.clefs (detectedElements final) = Some clefs ->
    DetectedElements.noteCount (detectedElements final) = Some n ->
    In (TrackInfo.mk "Treble Clef" "Piano" "Treble" (Math_floor (inject_Z n * 0.6)))
       (MidiMetadata.tracks (ProcessingResult.metadata r))
    /\ (In (TrackInfo.mk "Bass Clef" "Piano" "Bass" (Math_floor (inject_Z n * 0.4)))
          (MidiMetadata.tracks (ProcessingResult.metadata r))
        <-> array_includes clefs "Bass" = true).

(** The result carries the elements the job detected, all of them. *)
Definition result_carries_detected (final : HookState) : Prop :=
  forall r,
    result final = Some r ->
    ProcessingResult.detectedElements r = detectedElements final
    /\ DetectedElements.complete (ProcessingResult.detectedElements r).

(** ** Sample inputs *)

Definition standard_options : ProcessingOptions.t :=
  ProcessingOptions.mk None None None Mode.standard false false false.

Definition enhanced_options_at_90 : ProcessingOptions.t :=
  ProcessingOptions.mk (Some 90%Q) None None Mode.enhanced true false true.

Definition sample_clock : Clock :=
  mkClock "2025" "2025-03-01T10:00:00.000Z" "2025-03-01T10:00:00.001Z".

Definition sample_file : File.t := File.mk "Bach_Invention_1.png".

(** Every draw is one half: the job neither fails nor fails partially. *)
Definition draws_half : Random := fun _ => 0.5%Q.

(** Every draw is one twentieth: the job fails, with the first entry of
    [errorTypes]. *)
Definition draws_low : Random := fun _ => 0.05%Q.

(** The fourth draw alone is below 0.15: the job fails partially. *)
Definition draws_partial : Random :=
  fun k => if (k =? 3)%nat then 0.12%Q else 0.5%Q.

(** A hook whose job has come to the middle of the processing phase: the
    first 26 updates of a call have been dispatched, and the call is waiting
    on its sixth stage. *)
Definition mid_job : Hook :=
  dispatch_all mount
    (firstn 26 (submit mount sample_file standard_options sample_clock draws_half)).

(** ** More of what a call publishes *)

(** The arguments of the calls of [setStatus], in order. *)
Definition published_status (us : list Update) : list Status.t :=
  flat_map (fun u => match u with setStatus s => [s] | _ => [] end) us.

(** The arguments of the calls of [setCurrentStep], in order. *)
Definition published_steps (us : list Update) : list string :=
  flat_map (fun u => match u with setCurrentStep s => [s] | _ => [] end) us.

(** The delays of the timers a call waits on, in order. *)
Definition awaited (us : list Update) : list Q :=
  flat_map (fun u => match u with await ms => [ms] | _ => [] end) us.

Definition Qsum (l : list Q) : Q := fold_right Qplus 0%Q l.

(** Each progress value a call publishes, with the status in force when it
    is published; [s] is the status before the first update. *)
Fixpoint progress_log (us : list Update) (s : Status.t) : list (Status.t * Z) :=
  match us with
  | [] => []
  | setStatus s' :: us' => progress_log us' s'
  | setProgress p :: us' => (s, p) :: progress_log us' s
  | _ :: us' => progress_log us' s
  end.

(** A field that is present keeps its value. *)
Definition field_kept {A : Type} (before after : option A) : Prop :=
  forall v, before = Some v -> after = Some v.

Definition elements_kept (before after : DetectedElements.t) : Prop :=
  field_kept (DetectedElements.timeSignature before) (DetectedElements.timeSignature after)
  /\ field_kept (DetectedElements.keySignature before) (DetectedElements.keySignature after)
  /\ field_kept (DetectedElements.tempo before) (DetectedElements.tempo after)
  /\ field_kept (DetectedElements.tempoMarking before) (DetectedElements.tempoMarking after)
  /\ field_kept (DetectedElements.clefs before) (DetectedElements.clefs after)
  /\ field_kept (DetectedElements.noteCount before) (DetectedElements.noteCount after)
  /\ field_kept (DetectedElements.measures before) (DetectedElements.measures after)
  /\ field_kept (DetectedElements.dynamics before) (DetectedElements.dynamics after)
  /\ field_kept (DetectedElements.articulations before) (DetectedElements.articulations after).

(** Every functional update of the list, applied in turn from [d], keeps
    the fields that are present. *)
Fixpoint only_grows (us : list Update) (d : DetectedElements.t) : Prop :=
  match us with
  | [] => True
  | setDetectedElements f :: us' => elements_kept d (f d) /\ only_grows us' (f d)
  | _ :: us' => only_grows us' d
  end.

(** [reset()] is called after the first [n] updates of a call have landed;
    the call, which nothing cancels, goes on with the others. *)
Definition reset_during (us : list Update) (n : nat) : list Update :=
  firstn n us ++ reset ++ skipn n us.

(** ** What the page shows ([ProcessingStatus.tsx], [App.tsx]) *)

(** [Math.round] and [Math.ceil]. *)
Definition Math_round (x : Q) : Z := Qfloor (x + (1 # 2)).

Definition Math_ceil (x : Q) : Z := Qceiling x.

(** [getErrorTypeMessage(error.type)] *)
Definition getErrorTypeMessage (type : option ErrorType.t) : string :=
  match type with
  | Some ErrorType.blur => "Image quality is too low for accurate recognition"
  | Some ErrorType.notation => "Unsupported or complex notation style detected"
  | Some ErrorType.handwritten => "Handwritten notation detected - accuracy may vary"
  | Some ErrorType.multiple_signatures => "Multiple time signatures found"
  | Some ErrorType.format => "File format or structure not supported"
  | _ => "Unknown processing error occurred"
  end.

(** What
    [{estimatedTime && status !== 'success' && status !== 'error' && (...)}]
    puts under the title: React prints a number that ends an [&&] chain, so
    an estimate of 0 shows as the text 0.  In status [idle] the component
    returns [null] before it comes to this. *)
Inductive EtaLine : Type :=
| eta_nothing
| eta_zero
| eta_remaining (seconds : Z).

Definition eta_line (st : HookState) : EtaLine :=
  match status st with
  | Status.idle => eta_nothing
  | _ =>
      if Qeq_bool (estimatedTime st) 0 then eta_zero
      else
        match status st with
        | Status.success | Status.error => eta_nothing
        | _ => eta_remaining (Math_ceil (estimatedTime st / 1000))
        end
  end.

(** [error.confidence < 0.5]: the line with the confidence of an error is
    shown. *)
Definition shows_error_confidence (e : ProcessingError.t) : bool :=
  negb (Qle_bool 0.5 (ProcessingError.confidence e)).

(** The colour of the confidence badge of a result. *)
Inductive Badge : Set := green | yellow | red.

Definition confidence_badge (confidence : Q) : Badge :=
  if negb (Qle_bool confidence 0.8) then green
  else if negb (Qle_bool confidence 0.6) then yellow
  else red.

(** [Math.round(result.confidence * 100)], the figure on the badge. *)
Definition confidence_percent (confidence : Q) : Z :=
  Math_round (confidence * 100).

(** A character the file name of a result may contain before its
    extension. *)
Definition slug_char (c : ascii) : Prop := is_a_z_0_9 c = true \/ c = "-"%char.

(** A hook on which one job has run to its end. *)
Definition after_one_job : Hook :=
  dispatch_all mount
    (submit mount sample_file standard_options sample_clock draws_half).

(** ** The player ([MidiPlayer.tsx]) *)

(** [Math.max] and [Math.min] of two numbers. *)
Definition Math_max (x y : Q) : Q := if Qle_bool x y then y else x.

Definition Math_min (x y : Q) : Q := if Qle_bool x y then x else y.

(** [n.toString()] for a number that holds an integer. *)
Definition Number_toString (n : Z) : string :=
  NilZero.string_of_int (Z.to_int n).

Fixpoint string_repeat (c : ascii) (n : nat) : string :=
  match n with
  | O => EmptyString
  | S k => String c (string_repeat c k)
  end.

(** [s.padStart(n, c)] with a one-character filler. *)
Definition padStart (s : string) (n : nat) (c : ascii) : string :=
  (string_repeat c (n - String.length s) ++ s)%string.

(** [new TextEncoder().encode(s)]: the bytes of the string. *)
Definition TextEncoder_encode (s : string) : list Z :=
  map (fun c => Z.of_nat (nat_of_ascii c)) (list_ascii_of_string s).

(** [s || d] on strings: the empty string is falsy. *)
Definition or_default_string (s : option string) (d : string) : string :=
  match s with
  | Some v => if String.eqb v "" then d else v
  | None => d
  end.

(** The decimal digit [d] as a character. *)
Definition digit (d : Z) : ascii := ascii_of_nat (48 + Z.to_nat d).

Module MidiPlayer.
Record Props : Type := mkProps {
  fileName : string;
  midiData : option (list Z);
  metadata : option MidiMetadata.t
}.

Record State : Type := mkState {
  isPlaying : bool;
  currentTime : Q;
  duration : Q;
  volume : Q;
  speed : Q;
  loop : bool;
  showSettings : bool
}.

(** The initial values of the seven [useState] calls. *)
Definition initial : State := mkState false 0 180 0.7 1.0 false false.

Definition with_currentTime (st : State) (t : Q) : State :=
  mkState (isPlaying st) t (duration st) (volume st) (speed st) (loop st)
    (showSettings st).

Definition with_isPlaying (st : State) (b : bool) : State :=
  mkState b (currentTime st) (duration st) (volume st) (speed st) (loop st)
    (showSettings st).

(** The callback of the interval: the updater handed to [setCurrentTime],
    with the [setIsPlaying(false)] it makes at the end of the piece. *)
Definition tick (st : State) : State :=
  let newTime := (currentTime st + 100 * speed st)%Q in
  if Qle_bool (duration st * 1000) newTime then
    if loop st then with_currentTime st 0
    else with_currentTime (with_isPlaying st false) (duration st * 1000)
  else with_currentTime st newTime.

(** The effect keeps the interval only while [isPlaying] holds. *)
Definition interval (st : State) : State :=
  if isPlaying st then tick st else st.

Fixpoint intervals (n : nat) (st : State) : State :=
  match n with
  | O => st
  | S k => intervals k (interval st)
  end.

Definition notes : list string := [ "C4"; "D4"; "E4"; "F4"; "G4"; "A4"; "B4" ]%string.

(** [togglePlayback]: the new state, and the argument of [onNotePlay] when
    it is called ([r] is the draw of [Math.random]). *)
Definition togglePlayback (onNotePlay : bool) (r : Q) (st : State)
    : State * option (option string) :=
  (with_isPlaying st (negb (isPlaying st)),
   if onNotePlay && negb (isPlaying st)
   then Some (array_get notes
                (Math_floor (r * inject_Z (Z.of_nat (List.length notes)))))
   else None).

(** [handleSeek], on the parsed value of the slider. *)
Definition handleSeek (newTime : Q) (st : State) : State :=
  with_currentTime st newTime.

Definition skipBackward (st : State) : State :=
  with_currentTime st (Math_max 0 (currentTime st - 10000)).

Definition skipForward (st : State) : State :=
  with_currentTime st (Math_min (duration st * 1000) (currentTime st + 10000)).

Definition reset (st : State) : State :=
  with_isPlaying (with_currentTime st 0) false.

Definition toggleLoop (st : State) : State :=
  mkState (isPlaying st) (currentTime st) (duration st) (volume st) (speed st)
    (negb (loop st)) (showSettings st).

Definition setVolume (v : Q) (st : State) : State :=
  mkState (isPlaying st) (currentTime st) (duration st) v (speed st) (loop st)
    (showSettings st).

Definition setSpeed (s : Q) (st : State) : State :=
  mkState (isPlaying st) (currentTime st) (duration st) (volume st) s (loop st)
    (showSettings st).

Definition toggleSettings (st : State) : State :=
  mkState (isPlaying st) (currentTime st) (duration st) (volume st) (speed st)
    (loop st) (negb (showSettings st)).

(** The values of the six [<option>]s of the speed selector. *)
Definition speeds : list Q := [ 0.5; 0.75; 1; 1.25; 1.5; 2 ]%Q.

(** What can happen to a mounted player. *)
Inductive Action : Type :=
| Interval
| TogglePlayback (onNotePlay : bool) (r : Q)
| Seek (newTime : Q)
| SkipBackward
| SkipForward
| Reset
| ToggleLoop
| SetVolume (v : Q)
| SetSpeed (s : Q)
| ToggleSettings.

Definition act (st : State) (a : Action) : State :=
  match a with
  | Interval => interval st
  | TogglePlayback onNotePlay r => fst (togglePlayback onNotePlay r st)
  | Seek newTime => handleSeek newTime st
  | SkipBackward => skipBackward st
  | SkipForward => skipForward st
  | Reset => reset st
  | ToggleLoop => toggleLoop st
  | SetVolume v => setVolume v st
  | SetSpeed s => setSpeed s st
  | ToggleSettings => toggleSettings st
  end.

(** What the controls can send: a range input reports a value between its
    [min] and its [max], and the selector one of its options. *)
Definition offered (st : State) (a : Action) : Prop :=
  match a with
  | Seek newTime => (0 <= newTime)%Q /\ (newTime <= duration st * 1000)%Q
  | SetVolume v => (0 <= v)%Q /\ (v <= 1)%Q
  | SetSpeed s => In s speeds
  | _ => True
  end.

Inductive reachable : State -> Prop :=
| reach_initial : reachable initial
| reach_act : forall st a, reachable st -> offered st a -> reachable (act st a).

(** The position is on the slider, the piece lasts three minutes and the
    speed is positive. *)
Definition in_range (st : State) : Prop :=
  (0 <= currentTime st)%Q /\ (currentTime st <= duration st * 1000)%Q
  /\ duration st = 180%Q /\ (0 < speed st)%Q.

Definition formatTime (ms : Q) : string :=
  let seconds := Math_floor (ms / 1000) in
  let minutes := Math_floor (inject_Z seconds / 60) in
  let remainingSeconds := Z.rem seconds 60 in
  (Number_toString minutes ++ ":"
   ++ padStart (Number_toString remainingSeconds) 2 "0")%string.

(** The pieces of the array literal of [downloadMidi]. *)
Definition header_chunk : list Z :=
  [ 77; 84; 104; 100; 0; 0; 0; 6; 0; 1; 0; 2; 1; 224 ].

Definition track1_head : list Z := [ 77; 84; 114; 107; 0; 0; 0; 58 ].

Definition track1_body (title composer : string) : list Z :=
  [ 0; 255; 3; 10 ] ++ TextEncoder_encode title
  ++ [ 0; 255; 2; 8 ] ++ TextEncoder_encode composer
  ++ [ 0; 255; 47; 0 ].

Definition track2_head : list Z := [ 77; 84; 114; 107; 0; 0; 0; 32 ].

Definition track2_body : list Z :=
  [ 0; 144; 64; 64; 96; 128; 64; 64;
    0; 144; 66; 64; 96; 128; 66; 64;
    0; 144; 68; 64; 96; 128; 68; 64;
    0; 255; 47; 0 ].

(** [metadata?.title || 'Sheet Music'] and [metadata?.composer || 'Unknown'] *)
Definition download_title (props : Props) : string :=
  or_default_string (option_map MidiMetadata.title (metadata props)) "Sheet Music".

Definition download_composer (props : Props) : string :=
  or_default_string (option_map MidiMetadata.composer (metadata props)) "Unknown".

(** [downloadMidi]: the name given to the download and the bytes of the
    blob.  [Uint8Array] stores each element of the literal modulo 256. *)
Definition downloadMidi (props : Props) : string * list Z :=
  (fileName props,
   map (fun v => v mod 256)
     (header_chunk ++ track1_head
      ++ track1_body (download_title props) (download_composer props)
      ++ track2_head ++ track2_body)).

(** The length a chunk head declares for its body: the big-endian number in
    its last four bytes. *)
Definition declared_length (head : list Z) : Z :=
  fold_left (fun acc b => acc * 256 + b) (skipn 4 head) 0.
End MidiPlayer.

(** The props [App] gives the player for a result. *)
Definition player_props (r : ProcessingResult.t) : MidiPlayer.Props :=
  MidiPlayer.mkProps (ProcessingResult.fileName r)
    (Some (ProcessingResult.midiData r)) (Some (ProcessingResult.metadata r)).

(** ** The upload form ([FileUpload.tsx]) *)

(** A DOM [File] as the form reads it: the part the hook reads, the size in
    bytes and the MIME type. *)
Module DomFile.
Record t : Type := mk {
  file : File.t;
  size : Z;
  type : string
}.
End DomFile.

Module FileUpload.
(** The default of the prop [maxFileSize]. *)
Definition defaultMaxFileSize : Z := 10 * 1024 * 1024.

Record Validation : Type := mkValidation {
  valid : bool;
  error : option string
}.

Definition validTypes : list string :=
  [ "image/png"; "image/jpeg"; "image/jpg"; "image/gif";
    "application/pdf"; "image/tiff"; "image/bmp" ]%string.

Definition validateFile (maxFileSize : Z) (file : DomFile.t) : Validation :=
  if maxFileSize <? DomFile.size file then
    mkValidation false
      (Some ("File size exceeds "
             ++ Number_toString (Math_round (inject_Z maxFileSize / 1024 / 1024))
             ++ "MB limit")%string)
  else if negb (array_includes validTypes (DomFile.type file)) then
    mkValidation false
      (Some "Unsupported file format. Please use PNG, JPG, PDF, or TIFF files."%string)
  else mkValidation true None.

Record State : Type := mkState {
  dragOver : bool;
  selectedFile : option DomFile.t;
  showOptions : bool;
  options : ProcessingOptions.t
}.

(** The initial values of the four [useState] calls. *)
Definition initial : State :=
  mkState false None false
    (ProcessingOptions.mk None None None Mode.standard true false true).

(** What a handler does besides changing the state. *)
Inductive Output : Type :=
| alert (message : option string)
| onFileSelect (file : DomFile.t) (options : ProcessingOptions.t).

(** The two branches shared by [handleDrop] and [handleFileInput]. *)
Definition select (maxFileSize : Z) (file : DomFile.t) (st : State)
    : State * list Output :=
  let validation := validateFile maxFileSize file in
  if valid validation then
    (mkState (dragOver st) (Some file) true (options st), [])
  else (st, [alert (error validation)]).

(** [handleDrop], on [Array.from(e.dataTransfer.files)]. *)
Definition handleDrop (maxFileSize : Z) (files : list DomFile.t) (st : State)
    : State * list Output :=
  let st := mkState false (selectedFile st) (showOptions st) (options st) in
  match files with
  | file :: _ => select maxFileSize file st
  | [] => (st, [])
  end.

(** [handleFileInput], on [e.target.files?.[0]]. *)
Definition handleFileInput (maxFileSize : Z) (file : option DomFile.t)
    (st : State) : State * list Output :=
  match file with
  | Some file => select maxFileSize file st
  | None => (st, [])
  end.

Definition handleProcess (st : State) : State * list Output :=
  match selectedFile st with
  | Some file =>
      (mkState (dragOver st) None false (options st),
       [onFileSelect file (options st)])
  | None => (st, [])
  end.

(** The [onClick] of the two buttons that close the options. *)
Definition cancel (st : State) : State :=
  mkState (dragOver st) (selectedFile st) false (options st).

Definition setDragOver (b : bool) (st : State) : State :=
  mkState b (selectedFile st) (showOptions st) (options st).

(** The five [onChange] handlers of the options; the tempo handler receives
    what [e.target.value ? parseInt(e.target.value) : undefined] gives. *)
Definition setOptions (f : ProcessingOptions.t -> ProcessingOptions.t)
    (st : State) : State :=
  mkState (dragOver st) (selectedFile st) (showOptions st) (f (options st)).

Definition with_processingMode (m : Mode.t) (prev : ProcessingOptions.t)
    : ProcessingOptions.t :=
  ProcessingOptions.mk (ProcessingOptions.preferredTempo prev)
    (ProcessingOptions.preferredKey prev) (ProcessingOptions.selectedPages prev)
    m (ProcessingOptions.includeChords prev) (ProcessingOptions.includeLyrics prev)
    (ProcessingOptions.separateTracks prev).

Definition with_preferredTempo (tempo : option Z) (prev : ProcessingOptions.t)
    : ProcessingOptions.t :=
  ProcessingOptions.mk (option_map inject_Z tempo)
    (ProcessingOptions.preferredKey prev) (ProcessingOptions.selectedPages prev)
    (ProcessingOptions.processingMode prev)
    (ProcessingOptions.includeChords prev) (ProcessingOptions.includeLyrics prev)
    (ProcessingOptions.separateTracks prev).

Definition with_includeChords (b : bool) (prev : ProcessingOptions.t)
    : ProcessingOptions.t :=
  ProcessingOptions.mk (ProcessingOptions.preferredTempo prev)
    (ProcessingOptions.preferredKey prev) (ProcessingOptions.selectedPages prev)
    (ProcessingOptions.processingMode prev) b
    (ProcessingOptions.includeLyrics prev) (ProcessingOptions.separateTracks prev).

Definition with_includeLyrics (b : bool) (prev : ProcessingOptions.t)
    : ProcessingOptions.t :=
  ProcessingOptions.mk (ProcessingOptions.preferredTempo prev)
    (ProcessingOptions.preferredKey prev) (ProcessingOptions.selectedPages prev)
    (ProcessingOptions.processingMode prev)
    (ProcessingOptions.includeChords prev) b
    (ProcessingOptions.separateTracks prev).

Definition with_separateTracks (b : bool) (prev : ProcessingOptions.t)
    : ProcessingOptions.t :=
  ProcessingOptions.mk (ProcessingOptions.preferredTempo prev)
    (ProcessingOptions.preferredKey prev) (ProcessingOptions.selectedPages prev)
    (ProcessingOptions.processingMode prev)
    (ProcessingOptions.includeChords prev) (ProcessingOptions.includeLyrics prev) b.

(** What the user can do to the form. *)
Inductive Event : Type :=
| Drop (files : list DomFile.t)
| FileInput (file : option DomFile.t)
| DragOver
| DragLeave
| Process
| Cancel
| ChooseMode (m : Mode.t)
| TypeTempo (tempo : option Z)
| CheckChords (b : bool)
| CheckLyrics (b : bool)
| CheckTracks (b : bool).

Definition handle (maxFileSize : Z) (st : State) (e : Event)
    : State * list Output :=
  match e with
  | Drop files => handleDrop maxFileSize files st
  | FileInput file => handleFileInput maxFileSize file st
  | DragOver => (setDragOver true st, [])
  | DragLeave => (setDragOver false st, [])
  | Process => handleProcess st
  | Cancel => (cancel st, [])
  | ChooseMode m => (setOptions (with_processingMode m) st, [])
  | TypeTempo tempo => (setOptions (with_preferredTempo tempo) st, [])
  | CheckChords b => (setOptions (with_includeChords b) st, [])
  | CheckLyrics b => (setOptions (with_includeLyrics b) st, [])
  | CheckTracks b => (setOptions (with_separateTracks b) st, [])
  end.

(** Which events the rendered form can receive.  While [isProcessing] the
    drop zone has [pointer-events-none] and the file input is [disabled];
    the options, with their two closing buttons, are rendered only under
    [showOptions && selectedFile]. *)
Definition enabled (isProcessing : bool) (st : State) (e : Event) : bool :=
  match e with
  | Drop _ | FileInput _ | DragOver | DragLeave => negb isProcessing
  | _ =>
      showOptions st
      && match selectedFile st with Some _ => true | None => false end
  end.

Inductive reachable (maxFileSize : Z) : State -> Prop :=
| reach_initial : reachable maxFileSize initial
| reach_handle : forall st e isProcessing,
    reachable maxFileSize st ->
    enabled isProcessing st e = true ->
    reachable maxFileSize (fst (handle maxFileSize st e)).
End FileUpload.

(** ** The page ([App.tsx]): the hook, the form, and the calls in flight *)

(** A call runs until it reaches an [await] or its end: the state it
    leaves, and what is left of the call, the [await] first. *)
Fixpoint run_block (us : list Update) (h : Hook) : Hook * list Update :=
  match us with
  | [] => (h, [])
  | await ms :: _ => (h, us)
  | u :: us' => run_block us' (dispatch h u)
  end.

(** Along the rest of a call that starts under status [s], the status is
    one of the four active ones at every [await], and terminal at the
    end. *)
Fixpoint keeps_active (us : list Update) (s : Status.t) : bool :=
  match us with
  | [] => Status.terminal s
  | setStatus s' :: us' => keeps_active us' s'
  | await _ :: us' => Status.active s && keeps_active us' s
  | _ :: us' => keeps_active us' s
  end.

Module App.
Record State : Type := mkState {
  hook : Hook;
  pending : list (list Update);
  upload : FileUpload.State
}.

Definition initial : State := mkState mount [] FileUpload.initial.

(** [isProcessing], as passed to [FileUpload]. *)
Definition isProcessing (st : State) : bool :=
  Status.active (status (state (hook st))).

Inductive Event : Type :=
| Form (e : FileUpload.Event) (clock : Clock) (rand : Random)
| TimerFires (k : nat)
| ConvertAnother.

(** A call of [processFile] starts: it runs to its first [await]. *)
Definition start (h : Hook) (pending : list (list Update)) (file : DomFile.t)
    (options : ProcessingOptions.t) (clock : Clock) (rand : Random)
    : Hook * list (list Update) :=
  let '(h', rest) :=
    run_block (submit h (DomFile.file file) options clock rand) h in
  (h', match rest with [] => pending | _ => pending ++ [rest] end).

(** The timer the [k]-th call in flight waits on fires: the call runs to its
    next [await] or to its end. *)
Definition resume (h : Hook) (pending : list (list Update)) (k : nat)
    : Hook * list (list Update) :=
  match nth_error pending k with
  | Some (await _ :: rest) =>
      let '(h', rest') := run_block rest h in
      (h', firstn k pending
           ++ match rest' with [] => [] | _ => [rest'] end
           ++ skipn (S k) pending)
  | _ => (h, pending)
  end.

Definition step (st : State) (e : Event) : State :=
  match e with
  | Form e clock rand =>
      let '(upload', outputs) :=
        FileUpload.handle FileUpload.defaultMaxFileSize (upload st) e in
      match outputs with
      | [FileUpload.onFileSelect file options] =>
          let '(h', pending') :=
            start (hook st) (pending st) file options clock rand in
          mkState h' pending' upload'
      | _ => mkState (hook st) (pending st) upload'
      end
  | TimerFires k =>
      let '(h', pending') := resume (hook st) (pending st) k in
      mkState h' pending' (upload st)
  | ConvertAnother =>
      mkState (dispatch_all (hook st) reset) (pending st) (upload st)
  end.

(** The button ``Convert Another File'' is rendered in the three terminal
    statuses only. *)
Definition enabled (st : State) (e : Event) : bool :=
  match e with
  | Form e _ _ => FileUpload.enabled (isProcessing st) (upload st) e
  | TimerFires k =>
      match nth_error (pending st) k with Some _ => true | None => false end
  | ConvertAnother => Status.terminal (status (state (hook st)))
  end.

Inductive reachable : State -> Prop :=
| reach_initial : reachable initial
| reach_step : forall st e,
    reachable st -> enabled st e = true -> reachable (step st e).

(** At most one call is in flight; while one is, a job is under way and no
    file is selected; while none is, no job is under way. *)
Definition one_job_at_a_time (st : State) : Prop :=
  match pending st with
  | [] => isProcessing st = false
  | [rest] =>
      (exists ms rest', rest = await ms :: rest')
      /\ keeps_active rest (status (state (hook st))) = true
      /\ FileUpload.selectedFile (upload st) = None
  | _ => False
  end.
End App.

(** ** The piano ([VirtualPiano.tsx]) *)

Module VirtualPiano.
Definition whiteKeys : list string := [ "C"; "D"; "E"; "F"; "G"; "A"; "B" ]%string.

Definition blackKeys : list (option string) :=
  [ Some "C#"; Some "D#"; None; Some "F#"; Some "G#"; Some "A#"; None ]%string.



(** The values of the five [<option>]s of the octave selector. *)
Definition octaves : list Z := [ 2; 3; 4; 5; 6 ].

(** [pressedKeys], a [Set] of strings, and [octave]. *)
Record State : Type := mkState {
  pressedKeys : list string;
  octave : Z
}.

Definition initial : State := mkState [] 4.

(** [set.has(x)], [new Set(prev).add(x)] and the [delete] of a copy. *)
Definition has (set : list string) (x : string) : bool :=
  existsb (String.eqb x) set.

Definition add (set : list string) (x : string) : list string :=
  if has set x then set else set ++ [x].

Definition delete (set : list string) (x : string) : list string :=
  filter (fun y => negb (String.eqb x y)) set.

(** [`${note}${octave}`] *)
Definition fullNote (st : State) (note : string) : string :=
  (note ++ Number_toString (octave st))%string.



(** The effect on [currentNote]. *)
Definition noteEffect (currentNote : option string) (st : State) : State :=
  match currentNote with
  | Some note =>
      if String.eqb note "" then st
      else mkState (add (pressedKeys st) note) (octave st)
  | None => st
  end.

(** [isPressed], for the key of [note]. *)
Definition isPressed (st : State) (note : string) : bool :=
  has (pressedKeys st) (fullNote st note) || has (pressedKeys st) note.

(** The names of the twelve keys drawn. *)
Definition drawnKeys : list string :=
  whiteKeys
  ++ flat_map (fun k => match k with Some n => [n] | None => [] end) blackKeys.
End VirtualPiano.

(** ** More sample inputs *)

Definition sample_upload : DomFile.t := DomFile.mk sample_file 2048 "image/png".

(** The page after a file has been chosen, and after ``Process File'' has
    then been clicked. *)
Definition page_with_file : App.State :=
  App.step App.initial
    (App.Form (FileUpload.FileInput (Some sample_upload)) sample_clock draws_half).

Definition page_processing : App.State :=
  App.step page_with_file (App.Form FileUpload.Process sample_clock draws_half).

(** * Properties *)

(** The three ways a call can go, by the third and fourth draws. *)
Ltac job_cases rand :=
  unfold outcome, submit, processFile, try_block, finalize;
  destruct (shouldFail rand) eqn:Hfail;
  [ | destruct (shouldPartialFail rand) eqn:Hpartial ].

(** ** Running lists of updates *)

Lemma run_app : forall us vs st, run (us ++ vs) st = run vs (run us st).
Proof. intros us vs st; unfold run; apply fold_left_app. Qed.

Lemma state_at_all : forall us st n,
  (List.length us <= n)%nat -> state_at us st n = run us st.
Proof.
  intros us st n Hn; unfold state_at.
  now rewrite firstn_all2.
Qed.

(** [reset()] brings any state back to the initial one. *)
Lemma reset_clears : forall st, run reset st = initialState.
Proof. reflexivity. Qed.

Lemma state_dispatch_all : forall us h,
  state (dispatch_all h us) = run us (state h).
Proof.
  induction us as [|u us IH]; intros h; [reflexivity|].
  unfold dispatch_all, run in *; cbn [fold_left].
  now rewrite IH.
Qed.

(** ** The memoised callback *)

Lemma sees_dispatch_all : forall us h,
  processFile_sees (dispatch_all h us) = processFile_sees h.
Proof.
  induction us as [|u us IH]; intros h; [reflexivity|].
  unfold dispatch_all in *; cbn [fold_left].
  now rewrite IH.
Qed.

(** Whatever has been dispatched since the hook was mounted, the
    [processFile] it returns still sees the [detectedElements] of the first
    render, the empty object. *)
Lemma reachable_sees_empty : forall h,
  reachable h -> processFile_sees h = DetectedElements.empty.
Proof.
  induction 1 as [|h u _ IH]; [reflexivity|].
  exact IH.
Qed.

Lemma reachable_dispatch_all : forall us h,
  reachable h -> reachable (dispatch_all h us).
Proof.
  induction us as [|u us IH]; intros h Hh; [exact Hh|].
  unfold dispatch_all in *; cbn [fold_left].
  apply IH; now constructor.
Qed.

Lemma mid_job_reachable : reachable mid_job.
Proof. apply reachable_dispatch_all; constructor. Qed.

Lemma mid_job_is_active : Status.active (status (state mid_job)) = true.
Proof. reflexivity. Qed.

(** ** Track derivation *)

(** Given elements whose note count is present and not zero, [tracks_of]
    does derive the tracks from them: a Treble track at six tenths of the
    count, and a Bass track at four tenths exactly when the clefs include
    Bass. *)
Lemma tracks_of_detected : forall d clefs n,
  DetectedElements.clefs d = Some clefs ->
  DetectedElements.noteCount d = Some n ->
  n <> 0 ->
  tracks_of d =
    TrackInfo.mk "Treble Clef" "Piano" "Treble" (Math_floor (inject_Z n * 0.6))
    :: (if array_includes clefs "Bass"
        then [TrackInfo.mk "Bass Clef" "Piano" "Bass" (Math_floor (inject_Z n * 0.4))]
        else []).
Proof.
  intros d clefs n Hc Hn Hnz.
  unfold tracks_of, or_default_Z; rewrite Hc, Hn.
  apply Z.eqb_neq in Hnz; now rewrite Hnz.
Qed.

(** From the empty object the same function yields one Treble track of 60
    notes. *)
Lemma tracks_of_empty :
  tracks_of DetectedElements.empty =
    [TrackInfo.mk "Treble Clef" "Piano" "Treble" 60].
Proof. reflexivity. Qed.

(** Every result a mounted hook produces has that one track and the empty
    object as its detected elements, whatever the job detected. *)
Lemma result_of_reachable : forall h file options clock rand r,
  reachable h ->
  result (outcome h file options clock rand) = Some r ->
  MidiMetadata.tracks (ProcessingResult.metadata r)
    = [TrackInfo.mk "Treble Clef" "Piano" "Treble" 60]
  /\ ProcessingResult.detectedElements r = DetectedElements.empty.
Proof.
  intros h file options clock rand r Hh.
  unfold outcome, submit; rewrite (reachable_sees_empty h Hh).
  job_cases rand; cbn; intros Hr; try discriminate;
    injection Hr as <-; split; reflexivity.
Qed.

(** The elements a job has accumulated when it ends. *)
Lemma detected_at_end : forall h file options clock rand,
  detectedElements (outcome h file options clock rand) =
    DetectedElements.mk
      (Some "4/4"%string) (Some "C Major"%string)
      (Some (or_default_Q (ProcessingOptions.preferredTempo options) 120))
      (Some "Moderato"%string) (Some ["Treble"; "Bass"]%string)
      (Some (Math_floor (rand 0%nat * 200) + 50))
      (Some (Math_floor (rand 1%nat * 32) + 16))
      (Some ["p"; "mf"; "f"]%string) (Some ["staccato"; "legato"]%string).
Proof.
  intros h file options clock rand.
  job_cases rand; reflexivity.
Qed.

(** No job of a mounted hook that sets a result has tracks that follow what
    it detected: the clefs detected always include Bass, and the Bass track
    is never there. *)
Lemma tracks_never_follow_detected : forall h file options clock rand,
  reachable h ->
  result (outcome h file options clock rand) <> None ->
  ~ tracks_follow_detected (outcome h file options clock rand).
Proof.
  intros h file options clock rand Hh Hres Hclaim.
  destruct (result (outcome h file options clock rand)) as [r|] eqn:Hr;
    [|now apply Hres].
  destruct (result_of_reachable h file options clock rand r Hh Hr) as [Htracks _].
  pose proof (detected_at_end h file options clock rand) as Hdet.
  destruct (Hclaim r ["Treble"; "Bass"]%string
              (Math_floor (rand 0%nat * 200) + 50) Hr) as [_ [_ Hbass]];
    try (rewrite Hdet; reflexivity).
  specialize (Hbass eq_refl); rewrite Htracks in Hbass.
  destruct Hbass as [Hb|[]]; discriminate Hb.
Qed.

(** Nor does its result carry what it detected. *)
Lemma result_never_carries_detected : forall h file options clock rand,
  reachable h ->
  result (outcome h file options clock rand) <> None ->
  ~ result_carries_detected (outcome h file options clock rand).
Proof.
  intros h file options clock rand Hh Hres Hclaim.
  destruct (result (outcome h file options clock rand)) as [r|] eqn:Hr;
    [|now apply Hres].
  destruct (result_of_reachable h file options clock rand r Hh Hr) as [_ Hempty].
  destruct (Hclaim r Hr) as [Heq _].
  rewrite Hempty, detected_at_end in Heq; discriminate Heq.
Qed.

(** C1 (the code departs from it).  A job on a freshly mounted hook, in
    standard mode, with every draw one half: it ends in success having
    detected the clefs Treble and Bass and 150 notes, and its metadata has
    the single track Treble with 60 notes; the tracks do not follow the
    detected elements. *)
Theorem tracks_ignore_detected_elements :
  let final :=
    outcome mount sample_file standard_options sample_clock draws_half in
  status final = Status.success
  /\ DetectedElements.clefs (detectedElements final) = Some ["Treble"; "Bass"]%string
  /\ DetectedElements.noteCount (detectedElements final) = Some 150
  /\ option_map (fun r => MidiMetadata.tracks (ProcessingResult.metadata r))
       (result final)
     = Some [TrackInfo.mk "Treble Clef" "Piano" "Treble" 60]
  /\ ~ tracks_follow_detected final.
Proof.
  cbv zeta.
  split; [reflexivity|]. split; [reflexivity|]. split; [reflexivity|].
  split; [reflexivity|].
  intros Hclaim.
  unfold tracks_follow_detected in Hclaim; cbn in Hclaim.
  destruct (Hclaim _ ["Treble"; "Bass"]%string 150 eq_refl eq_refl eq_refl)
    as [_ [_ Hbass]].
  destruct (Hbass eq_refl) as [Hb|[]].
  discriminate Hb.
Qed.

(** C2 (the code departs from it).  The same job: every field of the
    accumulated elements is present when it ends, and the result it emits
    carries the empty object. *)
Theorem result_drops_detected_elements :
  let final :=
    outcome mount sample_file standard_options sample_clock draws_half in
  status final = Status.success
  /\ DetectedElements.complete (detectedElements final)
  /\ option_map ProcessingResult.detectedElements (result final)
     = Some DetectedElements.empty
  /\ ~ result_carries_detected final.
Proof.
  cbv zeta.
  split; [reflexivity|].
  split; [repeat split; discriminate|].
  split; [reflexivity|].
  intros Hclaim.
  unfold result_carries_detected in Hclaim; cbn in Hclaim.
  destruct (Hclaim _ eq_refl) as [Heq _].
  discriminate Heq.
Qed.

(** ** Terminal outcome *)

(** C3.  A job ends either in success or partial success with a result and
    no error, or in error with an error and no result; it never ends with
    both or with neither. *)
Theorem exactly_one_of_result_and_error :
  forall h file options clock rand,
    let final := outcome h file options clock rand in
    ((status final = Status.success \/ status final = Status.partial_success)
     /\ result final <> None /\ error final = None)
    \/ (status final = Status.error
        /\ error final <> None /\ result final = None).
Proof.
  intros h file options clock rand final; subst final.
  job_cases rand; cbn.
  - right; repeat split; congruence.
  - left; repeat split; try congruence; now right.
  - left; repeat split; try congruence; now left.
Qed.

(** ** Failure *)

(** A draw scaled by [n] and floored is an index below [n]. *)
Lemma floor_of_scaled_draw : forall r n,
  unit_draw r -> 0 < n ->
  0 <= Math_floor (r * inject_Z n) < n.
Proof.
  intros r n [Hlo Hhi] Hn; unfold Math_floor.
  assert (Hn' : (0 < inject_Z n)%Q) by (change 0%Q with (inject_Z 0); now rewrite <- Zlt_Qlt).
  split.
  - change 0 with (Qfloor (inject_Z 0)).
    apply Qfloor_resp_le; change (inject_Z 0) with 0%Q; nra.
  - rewrite Zlt_Qlt.
    apply Qle_lt_trans with (r * inject_Z n)%Q; [apply Qfloor_le | nra].
Qed.

(** Under the contract of [Math.random] the index always hits
    [errorTypes]. *)
Lemma randomError_defined : forall rand,
  unit_draw (rand 4%nat) ->
  exists tpl, randomError rand = Some tpl /\ In tpl errorTypes.
Proof.
  intros rand Hdraw; unfold randomError.
  pose proof (floor_of_scaled_draw (rand 4%nat) 3 Hdraw ltac:(lia)) as Hidx.
  change (inject_Z (Z.of_nat (List.length errorTypes))) with (inject_Z 3).
  set (i := Math_floor (rand 4%nat * inject_Z 3)) in *.
  assert (Hi : i = 0 \/ i = 1 \/ i = 2) by lia.
  destruct Hi as [-> | [-> | ->]]; cbn; eexists; split; try reflexivity;
    cbn; auto.
Qed.

Lemma errorTypes_have_suggestions : forall tpl,
  In tpl errorTypes -> tpl_suggestions tpl <> [].
Proof.
  intros tpl [<- | [<- | [<- | []]]]; discriminate.
Qed.

(** C4.  When the failure draw comes out below 0.1, the call consists of the
    prologue, the estimate and the ten stages, followed at once by the two
    updates of the [catch] clause: nothing of the finalization is issued and
    no result is ever set.  The job ends in [error], and the error carries
    the type, message and suggestions of the entry of [errorTypes] that was
    drawn (so the entry of type blur gives an error of type blur); the
    suggestions are not empty. *)
Theorem failure_gives_classified_error :
  forall h file options clock rand,
    random_ok rand ->
    shouldFail rand = true ->
    exists tpl,
      randomError rand = Some tpl
      /\ submit h file options clock rand
         = prologue ++ [setEstimatedTime (totalTime options)]
           ++ stages options rand ++ catch_block (thrown_error rand)
      /\ published_results (submit h file options clock rand) = []
      /\ status (outcome h file options clock rand) = Status.error
      /\ result (outcome h file options clock rand) = None
      /\ error (outcome h file options clock rand)
         = Some (ProcessingError.mk (Some (tpl_type tpl)) (Some (tpl_message tpl))
                   (Some (tpl_suggestions tpl)) (rand 5%nat * 0.3 + 0.1)%Q)
      /\ tpl_suggestions tpl <> [].
Proof.
  intros h file options clock rand Hrand Hfail.
  destruct (randomError_defined rand (Hrand 4%nat)) as [tpl [Htpl Hin]].
  exists tpl.
  split; [exact Htpl|].
  unfold outcome, submit, processFile, try_block, finalize; rewrite Hfail.
  split; [now rewrite <- !app_assoc|].
  split; [reflexivity|].
  split; [reflexivity|].
  split; [reflexivity|].
  split; [|now apply errorTypes_have_suggestions].
  cbn; unfold thrown_error, errorData; rewrite Htpl; reflexivity.
Qed.

Lemma draws_low_ok : random_ok draws_low.
Proof. intros k; split; unfold draws_low; [discriminate | reflexivity]. Qed.

Lemma failure_gives_classified_error_witness :
  random_ok draws_low
  /\ shouldFail draws_low = true
  /\ exists tpl,
      randomError draws_low = Some tpl
      /\ tpl_type tpl = ErrorType.blur
      /\ option_map ProcessingError.type
           (error (outcome mount sample_file standard_options sample_clock draws_low))
         = Some (Some (tpl_type tpl)).
Proof.
  split; [exact draws_low_ok|].
  split; [reflexivity|].
  destruct (failure_gives_classified_error mount sample_file standard_options
              sample_clock draws_low draws_low_ok eq_refl)
    as [tpl [Htpl [_ [_ [_ [_ [Herr _]]]]]]].
  exists tpl.
  split; [exact Htpl|].
  split; [now injection Htpl as <-|].
  now rewrite Herr.
Defined.

(** ** Time estimate *)

Lemma totalTime_positive : forall options, (0 < totalTime options)%Q.
Proof.
  intros options; unfold totalTime, timeMultiplier.
  destruct (ProcessingOptions.processingMode options); reflexivity.
Qed.

(** C5 (as the code has it).  The estimate is set once, when the job starts,
    to the total for the mode, and no stage changes it: after each of the ten
    stages it still equals that total, which is positive.  So across the
    stages the estimate never goes up, but it does not go down either and is
    not 0 after the last stage. *)
Theorem estimate_stays_at_total :
  forall h file options clock rand i,
    (i <= 9)%nat ->
    estimate_after_stage h file options clock rand i = totalTime options
    /\ (0 < estimate_after_stage h file options clock rand i)%Q.
Proof.
  intros h file options clock rand i Hi.
  assert (Heq : estimate_after_stage h file options clock rand i = totalTime options).
  { unfold estimate_after_stage, state_after_stage.
    job_cases rand;
      do 10 (destruct i as [|i]; [reflexivity|]); lia. }
  rewrite Heq; split; [reflexivity | apply totalTime_positive].
Qed.

Lemma estimate_stays_at_total_witness :
  (9 <= 9)%nat
  /\ estimate_after_stage mount sample_file enhanced_options_at_90 sample_clock
       draws_half 9 = totalTime enhanced_options_at_90
  /\ (totalTime enhanced_options_at_90 == 17250)%Q.
Proof.
  split; [lia|].
  split; [|reflexivity].
  apply (estimate_stays_at_total mount sample_file enhanced_options_at_90
           sample_clock draws_half 9); lia.
Defined.

(** C5 as stated fails: in standard mode the estimate is 11500 after the
    first stage, after the second and after the last. *)
Lemma estimate_does_not_count_down :
  ~ estimate_counts_down mount sample_file standard_options sample_clock draws_half.
Proof.
  intros [Hdown Hzero].
  specialize (Hdown 0%nat 1%nat ltac:(lia)).
  vm_compute in Hdown; discriminate Hdown.
Qed.

Lemma sum_of_durations_value : sum_of_durations = 11500.
Proof. reflexivity. Qed.

Lemma timeMultiplier_of_mode : forall options,
  (timeMultiplier options
   == mode_multiplier (ProcessingOptions.processingMode options))%Q.
Proof.
  intros options; unfold timeMultiplier, mode_multiplier.
  destruct (ProcessingOptions.processingMode options); reflexivity.
Qed.

(** C6.  The one estimate a call publishes is set in the synchronous opening
    of the call, right after the prologue; it is the sum of the nominal
    durations of the ten stages times the multiplier of the mode: 1 for
    standard, 3/2 for enhanced, 2 for manual assist. *)
Theorem total_estimate_at_start :
  forall h file options clock rand,
    (exists rest,
       submit h file options clock rand
       = prologue ++ setEstimatedTime (totalTime options) :: rest
       /\ published_estimates rest = [])
    /\ published_estimates (submit h file options clock rand) = [totalTime options]
    /\ (totalTime options
        == inject_Z sum_of_durations
           * mode_multiplier (ProcessingOptions.processingMode options))%Q.
Proof.
  intros h file options clock rand.
  split; [|split].
  - job_cases rand; eexists; (split; [reflexivity | reflexivity]).
  - job_cases rand; reflexivity.
  - unfold totalTime.
    rewrite timeMultiplier_of_mode.
    reflexivity.
Qed.

(** ** Confidence *)

Lemma recognize_confidence_range : forall file,
  (0 <= rec_confidence (recognize file))%Q
  /\ (rec_confidence (recognize file) <= 1)%Q.
Proof.
  intros file; unfold recognize.
  repeat match goal with
         | |- context [if ?c then _ else _] => destruct c
         end; cbn [rec_confidence]; split; discriminate.
Qed.

(** C7.  The confidence of every result a job sets lies between 0 and 1, and
    a job that ends in partial success has set a result whose confidence is
    0.65, whatever the file name was recognised as. *)
Theorem confidence_of_results :
  forall h file options clock rand,
    (forall r,
       result (outcome h file options clock rand) = Some r ->
       (0 <= ProcessingResult.confidence r)%Q
       /\ (ProcessingResult.confidence r <= 1)%Q)
    /\ (status (outcome h file options clock rand) = Status.partial_success ->
        exists r,
          result (outcome h file options clock rand) = Some r
          /\ ProcessingResult.confidence r = 0.65%Q).
Proof.
  intros h file options clock rand.
  pose proof (recognize_confidence_range file) as Hrange.
  job_cases rand; cbn -[recognize]; split.
  - intros r Hr; discriminate Hr.
  - intros Hs; discriminate Hs.
  - intros r Hr; injection Hr as <-; cbn; split; discriminate.
  - intros _; eexists; split; reflexivity.
  - intros r Hr; injection Hr as <-; exact Hrange.
  - intros Hs; discriminate Hs.
Qed.

Lemma confidence_of_results_witness :
  status (outcome mount sample_file standard_options sample_clock draws_partial)
    = Status.partial_success
  /\ exists r,
       result (outcome mount sample_file standard_options sample_clock draws_partial)
         = Some r
       /\ ProcessingResult.title r = "Two-Part Invention"%string
       /\ ProcessingResult.confidence r = 0.65%Q
       /\ (0 <= ProcessingResult.confidence r)%Q
       /\ (ProcessingResult.confidence r <= 1)%Q.
Proof.
  split; [reflexivity|].
  destruct (confidence_of_results mount sample_file standard_options
              sample_clock draws_partial) as [Hrange Hpartial].
  destruct (Hpartial eq_refl) as [r [Hr Hc]].
  exists r.
  split; [exact Hr|].
  split; [|split; [exact Hc | exact (Hrange r Hr)]].
  cbv in Hr; now injection Hr as <-.
Defined.

(** ** Progress *)

Lemma last_nonempty_default : forall (l : list Z) x d d',
  last (x :: l) d = last (x :: l) d'.
Proof.
  induction l as [|y l IH]; intros x d d'; [reflexivity|].
  change (last (x :: y :: l) d) with (last (y :: l) d).
  change (last (x :: y :: l) d') with (last (y :: l) d').
  apply IH.
Qed.

(** The progress a state shows is the last value published, if any. *)
Lemma progress_run : forall us st,
  progress (run us st) = last (published_progress us) (progress st).
Proof.
  induction us as [|u us IH]; intros st; [reflexivity|].
  change (run (u :: us) st) with (run us (apply_update st u)).
  rewrite IH.
  destruct u; try reflexivity.
  change (published_progress (setProgress p :: us))
    with (p :: published_progress us).
  cbn [apply_update progress].
  destruct (published_progress us) as [|q l]; [reflexivity|].
  change (last (p :: q :: l) (progress st)) with (last (q :: l) (progress st)).
  apply last_nonempty_default.
Qed.

(** If the values a list of updates publishes are in order and start at or
    above the progress of the state they run from, no prefix brings the
    progress below it. *)
Lemma progress_prefix_lower_bound : forall us st n,
  Sorted Z.le (progress st :: published_progress us) ->
  progress st <= progress (state_at us st n).
Proof.
  induction us as [|u us IH]; intros st n Hs.
  - unfold state_at; rewrite firstn_nil; cbn; lia.
  - destruct n as [|n]; [cbn; lia|].
    change (state_at (u :: us) st (S n)) with (state_at us (apply_update st u) n).
    destruct u; cbn [published_progress flat_map app] in Hs;
      try (match goal with
           | |- _ <= progress (state_at us ?st' n) =>
               change (progress st <= progress (state_at us st' n))
                 with (progress st' <= progress (state_at us st' n));
               apply (IH st' n); exact Hs
           end).
    apply Sorted_inv in Hs; destruct Hs as [Hs' Hhd].
    apply HdRel_inv in Hhd.
    apply Z.le_trans with p; [exact Hhd|].
    apply (IH (apply_update st (setProgress p)) n); exact Hs'.
Qed.

(** ... and a longer prefix never shows less progress than a shorter one. *)
Lemma progress_prefix_monotone : forall us st n m,
  Sorted Z.le (progress st :: published_progress us) ->
  (n <= m)%nat ->
  progress (state_at us st n) <= progress (state_at us st m).
Proof.
  induction us as [|u us IH]; intros st n m Hs Hnm.
  - unfold state_at; rewrite !firstn_nil; cbn; lia.
  - destruct n as [|n].
    + change (state_at (u :: us) st 0) with st.
      now apply progress_prefix_lower_bound.
    + destruct m as [|m]; [lia|].
      change (state_at (u :: us) st (S n)) with (state_at us (apply_update st u) n).
      change (state_at (u :: us) st (S m)) with (state_at us (apply_update st u) m).
      apply IH; [|lia].
      destruct u; cbn [published_progress flat_map app] in Hs; try exact Hs.
      now apply Sorted_inv in Hs.
Qed.

Lemma published_progress_of_call : forall h file options clock rand,
  published_progress (submit h file options clock rand)
  = [0; 5; 15; 25; 35; 55; 70; 80; 85; 95; 100].
Proof.
  intros h file options clock rand.
  job_cases rand; reflexivity.
Qed.

Lemma submit_starts_with_prologue : forall h file options clock rand,
  exists rest,
    submit h file options clock rand = prologue ++ rest
    /\ published_progress rest = [5; 15; 25; 35; 55; 70; 80; 85; 95; 100].
Proof.
  intros h file options clock rand.
  job_cases rand; eexists; (split; [reflexivity | reflexivity]).
Qed.

(** C8.  The values a call passes to [setProgress] are in non-decreasing
    order, and from the end of the prologue on the progress shown by the
    state never goes down.  A job that ends in success or partial success
    ends at 100; a job that ends in error ends at the progress that had been
    reached when the failure was thrown. *)
Theorem progress_never_goes_down :
  forall h file options clock rand,
    Sorted Z.le (published_progress (submit h file options clock rand))
    /\ (forall n m,
          (List.length prologue <= n <= m)%nat ->
          progress (state_at (submit h file options clock rand) (state h) n)
          <= progress (state_at (submit h file options clock rand) (state h) m))
    /\ (status (outcome h file options clock rand) = Status.success
        \/ status (outcome h file options clock rand) = Status.partial_success ->
        progress (outcome h file options clock rand) = 100)
    /\ (status (outcome h file options clock rand) = Status.error ->
        progress (outcome h file options clock rand)
        = progress (run (before_catch h file options clock rand) (state h))).
Proof.
  intros h file options clock rand.
  split; [|split; [|split]].
  - rewrite published_progress_of_call.
    repeat constructor; lia.
  - intros n m [Hn Hm].
    destruct (submit_starts_with_prologue h file options clock rand)
      as [rest [Hsplit Hpub]].
    rewrite Hsplit.
    assert (Hcut : forall k, (List.length prologue <= k)%nat ->
              state_at (prologue ++ rest) (state h) k
              = state_at rest (run prologue (state h)) (k - List.length prologue)).
    { intros k Hk; unfold state_at.
      rewrite firstn_app, firstn_all2 by exact Hk.
      apply run_app. }
    rewrite (Hcut n Hn), (Hcut m ltac:(lia)).
    apply progress_prefix_monotone; [|lia].
    rewrite Hpub; cbn [progress run prologue fold_left apply_update].
    repeat constructor; lia.
  - intros _; unfold outcome.
    rewrite progress_run, published_progress_of_call; reflexivity.
  - intros _; unfold outcome, before_catch.
    rewrite !progress_run.
    job_cases rand; reflexivity.
Qed.

Lemma progress_never_goes_down_witness :
  (List.length prologue <= 9 <= 30)%nat
  /\ progress (state_at (submit mid_job sample_file standard_options sample_clock draws_low)
                 (state mid_job) 9) = 5
  /\ progress (state_at (submit mid_job sample_file standard_options sample_clock draws_low)
                 (state mid_job) 30) = 70
  /\ 5 <= 70
  /\ status (outcome mid_job sample_file standard_options sample_clock draws_low)
     = Status.error
  /\ progress (outcome mid_job sample_file standard_options sample_clock draws_low)
     = 100.
Proof.
  pose proof (progress_never_goes_down mid_job sample_file standard_options
                sample_clock draws_low) as [_ [Hmono [_ Herr]]].
  assert (Hrange : (List.length prologue <= 9 <= 30)%nat) by (cbn; lia).
  specialize (Hmono 9%nat 30%nat Hrange).
  specialize (Herr eq_refl).
  split; [exact Hrange|].
  split; [reflexivity|].
  split; [reflexivity|].
  split; [exact Hmono|].
  split; [reflexivity|].
  rewrite Herr; reflexivity.
Defined.

(** ** Submitting while a job is under way *)

(** C9 (as the code has it).  [processFile] has no guard.  Whatever state
    the hook is in, a job under way included, a call opens with the five
    updates of the prologue, after which the status is [uploading], the
    progress 0, the result and the error null and the detected elements
    empty; the call then runs on to a terminal state.  Keeping submissions
    away while a job is under way is left to the caller. *)
Theorem submit_always_restarts :
  forall h file options clock rand,
    (exists rest, submit h file options clock rand = prologue ++ rest)
    /\ run prologue (state h)
       = mkState Status.uploading 0 (currentStep (state h)) None None
           (estimatedTime (state h)) DetectedElements.empty
    /\ Status.terminal (status (outcome h file options clock rand)) = true.
Proof.
  intros h file options clock rand.
  split; [|split].
  - destruct (submit_starts_with_prologue h file options clock rand)
      as [rest [Hsplit _]].
    now exists rest.
  - reflexivity.
  - job_cases rand; reflexivity.
Qed.

(** C9 as stated fails: with a job in the middle of its processing phase, at
    progress 55 and with four elements detected, a further call is not
    turned away; after its first five updates the progress is back at 0. *)
Lemma submit_while_active_is_not_rejected :
  ~ rejected_while_active mid_job sample_file standard_options sample_clock draws_half.
Proof.
  intros Hrejected.
  specialize (Hrejected eq_refl 5%nat).
  apply (f_equal progress) in Hrejected.
  vm_compute in Hrejected; discriminate Hrejected.
Qed.

(** ** Tempo *)

(** An invariant kept by every update of a list holds after each prefix. *)
Lemma state_at_invariant : forall (P : HookState -> Prop) us st n,
  Forall (fun u => forall st', P st' -> P (apply_update st' u)) us ->
  P st -> P (state_at us st n).
Proof.
  intros P us; induction us as [|u us IH]; intros st n Hall Hst.
  - unfold state_at; now rewrite firstn_nil.
  - destruct n as [|n]; [exact Hst|].
    change (state_at (u :: us) st (S n)) with (state_at us (apply_update st u) n).
    apply Forall_cons_iff in Hall; destruct Hall as [Hu Hus].
    apply IH; [exact Hus | now apply Hu].
Qed.

Lemma submit_starts_with_analysis : forall h file options clock rand,
  exists rest,
    submit h file options clock rand = through_analysis options ++ rest
    /\ Forall (fun u => forall st' t,
                 DetectedElements.tempo (detectedElements st') = t ->
                 DetectedElements.tempo (detectedElements (apply_update st' u)) = t)
         rest.
Proof.
  intros h file options clock rand.
  job_cases rand; eexists; (split; [reflexivity|]);
    repeat constructor; intros st' t Ht; exact Ht.
Qed.

(** What [preferredTempo || 120] evaluates to. *)
Lemma or_default_of_preference : forall options,
  tempo_preference_ok options ->
  or_default_Q (ProcessingOptions.preferredTempo options) 120
  = match ProcessingOptions.preferredTempo options with
    | Some p => p
    | None => 120%Q
    end.
Proof.
  intros options Hok; unfold or_default_Q.
  destruct (ProcessingOptions.preferredTempo options) as [p|] eqn:Hp; [|reflexivity].
  destruct (Qeq_bool p 0) eqn:Hz; [|reflexivity].
  apply Qeq_bool_eq in Hz.
  specialize (Hok p Hp); rewrite Hz in Hok.
  discriminate Hok.
Qed.

(** C10.  Once the analysis loop has finished its last iteration, and from
    then on through every later update of the call, the detected elements
    held by the state have the preferred tempo of the options as their tempo
    when one was given (a positive number), and 120 when none was. *)
Theorem tempo_echoes_preference :
  forall h file options clock rand n,
    tempo_preference_ok options ->
    (List.length (through_analysis options) <= n)%nat ->
    DetectedElements.tempo
      (detectedElements (state_at (submit h file options clock rand) (state h) n))
    = Some (match ProcessingOptions.preferredTempo options with
            | Some p => p
            | None => 120%Q
            end).
Proof.
  intros h file options clock rand n Hok Hn.
  rewrite <- (or_default_of_preference options Hok).
  destruct (submit_starts_with_analysis h file options clock rand)
    as [rest [Hsplit Hkeep]].
  rewrite Hsplit; unfold state_at.
  rewrite firstn_app, firstn_all2 by exact Hn.
  rewrite run_app.
  apply (state_at_invariant
           (fun st' => DetectedElements.tempo (detectedElements st')
                       = Some (or_default_Q (ProcessingOptions.preferredTempo options) 120))).
  - eapply Forall_impl; [|exact Hkeep].
    intros u Hu st' Hst'; now apply Hu.
  - reflexivity.
Qed.

Lemma enhanced_options_at_90_ok : tempo_preference_ok enhanced_options_at_90.
Proof.
  intros p Hp; injection Hp as <-; reflexivity.
Qed.

Lemma tempo_echoes_preference_witness :
  tempo_preference_ok enhanced_options_at_90
  /\ (List.length (through_analysis enhanced_options_at_90) <= 21)%nat
  /\ DetectedElements.tempo
       (detectedElements
          (state_at (submit mount sample_file enhanced_options_at_90 sample_clock draws_half)
             (state mount) 21))
     = Some 90%Q.
Proof.
  split; [exact enhanced_options_at_90_ok|].
  split; [cbn; lia|].
  apply (tempo_echoes_preference mount sample_file enhanced_options_at_90
           sample_clock draws_half 21 enhanced_options_at_90_ok).
  cbn; lia.
Defined.

(** * Further properties of the hook *)

(** ** Jobs and the state they start from *)

(** A call overwrites each of the seven pieces of state, so the state a job
    ends in does not depend on the state it started from: on a mounted hook,
    with or without a [reset()] in between, a job ends exactly as it would
    right after the mount. *)
Theorem outcome_forgets_history :
  forall h file options clock rand,
    reachable h ->
    submit h file options clock rand = submit mount file options clock rand
    /\ outcome h file options clock rand = outcome mount file options clock rand.
Proof.
  intros h file options clock rand Hh.
  unfold outcome, submit.
  rewrite (reachable_sees_empty h Hh), (reachable_sees_empty mount reach_mount).
  split; [reflexivity|].
  unfold processFile, try_block, finalize.
  destruct (shouldFail rand); [|destruct (shouldPartialFail rand)]; reflexivity.
Qed.

Lemma outcome_forgets_history_witness :
  reachable mid_job
  /\ state mid_job <> state mount
  /\ outcome mid_job sample_file standard_options sample_clock draws_half
     = outcome mount sample_file standard_options sample_clock draws_half.
Proof.
  split; [exact mid_job_reachable|].
  split; [intros Heq; apply (f_equal progress) in Heq; discriminate Heq|].
  apply (outcome_forgets_history mid_job sample_file standard_options
           sample_clock draws_half mid_job_reachable).
Defined.

(** [reset()] does not cancel a call.  If it lands while the call is still
    short of its last [setProgress], the rest of the call lands after it:
    the hook still ends in a terminal status at progress 100, with either a
    result or an error. *)
Theorem reset_does_not_cancel :
  forall h file options clock rand n,
    (n <= 43)%nat ->
    let final :=
      run (reset_during (submit h file options clock rand) n) (state h) in
    Status.terminal (status final) = true
    /\ progress final = 100
    /\ (result final <> None \/ error final <> None)
    /\ status final = status (outcome h file options clock rand).
Proof.
  intros h file options clock rand n Hn final; subst final.
  unfold reset_during.
  job_cases rand;
    do 44 (destruct n as [|n];
           [cbn; repeat split; try reflexivity;
            (left; discriminate) || (right; discriminate) |]);
    lia.
Qed.

Lemma reset_does_not_cancel_witness :
  (26 <= 43)%nat
  /\ status (run (reset_during
                    (submit mount sample_file standard_options sample_clock draws_half) 26)
               (state mount)) = Status.success
  /\ DetectedElements.clefs
       (detectedElements
          (run (reset_during
                  (submit mount sample_file standard_options sample_clock draws_half) 26)
             (state mount))) = None.
Proof.
  split; [lia|].
  split; [|reflexivity].
  destruct (reset_does_not_cancel mount sample_file standard_options
              sample_clock draws_half 26 ltac:(lia)) as [_ [_ [_ Hs]]].
  rewrite Hs; reflexivity.
Defined.

(** ** What a job detects *)

(** With draws in the unit interval, a job ends with a note count between
    50 and 249 and a number of measures between 16 and 47. *)
Theorem detected_counts_in_range :
  forall h file options clock rand,
    random_ok rand ->
    exists notes measures,
      DetectedElements.noteCount
        (detectedElements (outcome h file options clock rand)) = Some notes
      /\ DetectedElements.measures
           (detectedElements (outcome h file options clock rand)) = Some measures
      /\ 50 <= notes <= 249
      /\ 16 <= measures <= 47.
Proof.
  intros h file options clock rand Hrand.
  rewrite detected_at_end;
    cbn [DetectedElements.noteCount DetectedElements.measures].
  pose proof (floor_of_scaled_draw (rand 0%nat) 200 (Hrand 0%nat) ltac:(lia)) as Hn.
  pose proof (floor_of_scaled_draw (rand 1%nat) 32 (Hrand 1%nat) ltac:(lia)) as Hm.
  change (inject_Z 200) with 200%Q in Hn.
  change (inject_Z 32) with 32%Q in Hm.
  eexists; eexists; split; [reflexivity|]; split; [reflexivity|]; lia.
Qed.

Lemma draws_half_ok : random_ok draws_half.
Proof. intros k; split; unfold draws_half; [discriminate | reflexivity]. Qed.

Lemma detected_counts_in_range_witness :
  random_ok draws_half
  /\ exists notes measures,
      DetectedElements.noteCount
        (detectedElements
           (outcome mount sample_file standard_options sample_clock draws_half))
      = Some notes
      /\ DetectedElements.measures
           (detectedElements
              (outcome mount sample_file standard_options sample_clock draws_half))
         = Some measures
      /\ 50 <= notes <= 249
      /\ 16 <= measures <= 47.
Proof.
  split; [exact draws_half_ok|].
  exact (detected_counts_in_range mount sample_file standard_options
           sample_clock draws_half draws_half_ok).
Defined.

(** Reflexivity and transitivity of [elements_kept]. *)
Lemma elements_kept_refl : forall d, elements_kept d d.
Proof. intros d; repeat split; intros v Hv; exact Hv. Qed.

Lemma elements_kept_trans : forall a b c,
  elements_kept a b -> elements_kept b c -> elements_kept a c.
Proof.
  unfold elements_kept, field_kept; intros a b c Hab Hbc.
  repeat match goal with H : _ /\ _ |- _ => destruct H end.
  repeat split; intros v Hv; auto.
Qed.

Lemma only_grows_later : forall us st n,
  only_grows us (detectedElements st) ->
  elements_kept (detectedElements st) (detectedElements (state_at us st n)).
Proof.
  induction us as [|u us IH]; intros st n Hg.
  - unfold state_at; rewrite firstn_nil; apply elements_kept_refl.
  - destruct n as [|n]; [apply elements_kept_refl|].
    change (state_at (u :: us) st (S n)) with (state_at us (apply_update st u) n).
    destruct u; cbn [only_grows] in Hg;
      try (match goal with
           | |- elements_kept _ (detectedElements (state_at us ?st' n)) =>
               exact (IH st' n Hg)
           end).
    destruct Hg as [Hstep Hrest].
    eapply elements_kept_trans; [exact Hstep|].
    exact (IH (apply_update st (setDetectedElements f)) n Hrest).
Qed.

Lemma only_grows_monotone : forall us st n m,
  only_grows us (detectedElements st) ->
  (n <= m)%nat ->
  elements_kept (detectedElements (state_at us st n))
                (detectedElements (state_at us st m)).
Proof.
  induction us as [|u us IH]; intros st n m Hg Hnm.
  - unfold state_at; rewrite !firstn_nil; apply elements_kept_refl.
  - destruct n as [|n].
    + change (state_at (u :: us) st 0) with st.
      now apply only_grows_later.
    + destruct m as [|m]; [lia|].
      change (state_at (u :: us) st (S n)) with (state_at us (apply_update st u) n).
      change (state_at (u :: us) st (S m)) with (state_at us (apply_update st u) m).
      apply IH; [|lia].
      destruct u; cbn [only_grows] in Hg; try exact Hg.
      now destruct Hg.
Qed.

Lemma submit_only_grows : forall h file options clock rand,
  exists rest,
    submit h file options clock rand = prologue ++ rest
    /\ only_grows rest DetectedElements.empty.
Proof.
  intros h file options clock rand.
  job_cases rand; eexists; (split; [reflexivity|]);
    cbn; unfold elements_kept, field_kept; cbn;
    repeat split; intros v Hv; (exact Hv || discriminate Hv).
Qed.

(** From the end of the prologue on, a field of the detected elements that
    is present stays present with the same value through the rest of the
    call: the stages only add fields. *)
Theorem detected_elements_only_grow :
  forall h file options clock rand n m,
    (List.length prologue <= n <= m)%nat ->
    elements_kept
      (detectedElements (state_at (submit h file options clock rand) (state h) n))
      (detectedElements (state_at (submit h file options clock rand) (state h) m)).
Proof.
  intros h file options clock rand n m [Hn Hm].
  destruct (submit_only_grows h file options clock rand) as [rest [Hsplit Hg]].
  rewrite Hsplit.
  assert (Hcut : forall k, (List.length prologue <= k)%nat ->
            state_at (prologue ++ rest) (state h) k
            = state_at rest (run prologue (state h)) (k - List.length prologue)).
  { intros k Hk; unfold state_at.
    rewrite firstn_app, firstn_all2 by exact Hk.
    apply run_app. }
  rewrite (Hcut n Hn), (Hcut m ltac:(lia)).
  apply only_grows_monotone; [exact Hg | lia].
Qed.

Lemma detected_elements_only_grow_witness :
  (List.length prologue <= 17 <= 40)%nat
  /\ DetectedElements.clefs
       (detectedElements
          (state_at (submit mount sample_file standard_options sample_clock draws_half)
             (state mount) 17)) = Some ["Treble"; "Bass"]%string
  /\ DetectedElements.clefs
       (detectedElements
          (state_at (submit mount sample_file standard_options sample_clock draws_half)
             (state mount) 40)) = Some ["Treble"; "Bass"]%string.
Proof.
  assert (Hrange : (List.length prologue <= 17 <= 40)%nat) by (cbn; lia).
  split; [exact Hrange|].
  split; [reflexivity|].
  destruct (detected_elements_only_grow mount sample_file standard_options
              sample_clock draws_half 17 40 Hrange)
    as [_ [_ [_ [_ [Hclefs _]]]]].
  apply Hclefs; reflexivity.
Defined.

(** ** Errors *)

(** With draws in the unit interval, the error of a failed job is of type
    blur, notation or handwritten, never format, multiple signatures or
    unknown, and has three suggestions; its confidence is at least 0.1 and
    at most 0.4, so the status panel always prints it, under a heading other
    than the one for unknown errors. *)
Theorem failure_error_shape :
  forall h file options clock rand,
    random_ok rand ->
    shouldFail rand = true ->
    exists e type suggestions,
      error (outcome h file options clock rand) = Some e
      /\ ProcessingError.type e = Some type
      /\ (type = ErrorType.blur \/ type = ErrorType.notation
          \/ type = ErrorType.handwritten)
      /\ ProcessingError.suggestions e = Some suggestions
      /\ List.length suggestions = 3%nat
      /\ (0.1 <= ProcessingError.confidence e)%Q
      /\ (ProcessingError.confidence e <= 0.4)%Q
      /\ shows_error_confidence e = true
      /\ getErrorTypeMessage (ProcessingError.type e)
         <> getErrorTypeMessage (Some ErrorType.unknown).
Proof.
  intros h file options clock rand Hrand Hfail.
  destruct (randomError_defined rand (Hrand 4%nat)) as [tpl [Htpl Hin]].
  destruct (Hrand 5%nat) as [Hlo Hhi].
  assert (Herr : error (outcome h file options clock rand)
                 = Some (spread_error (Some tpl) (rand 5%nat * 0.3 + 0.1)%Q)).
  { unfold outcome, submit, processFile, try_block, finalize; rewrite Hfail.
    cbn; unfold thrown_error, errorData; now rewrite Htpl. }
  exists (spread_error (Some tpl) (rand 5%nat * 0.3 + 0.1)%Q),
         (tpl_type tpl), (tpl_suggestions tpl).
  split; [exact Herr|].
  cbn [spread_error ProcessingError.type ProcessingError.suggestions
       ProcessingError.confidence].
  assert (Hconf_lo : (0.1 <= rand 5%nat * 0.3 + 0.1)%Q) by nra.
  assert (Hconf_hi : (rand 5%nat * 0.3 + 0.1 <= 0.4)%Q) by nra.
  repeat split; try assumption.
  - destruct Hin as [<- | [<- | [<- | []]]]; cbn; auto.
  - destruct Hin as [<- | [<- | [<- | []]]]; reflexivity.
  - unfold shows_error_confidence;
      cbn [spread_error ProcessingError.confidence].
    destruct (Qle_bool 0.5 (rand 5%nat * 0.3 + 0.1)) eqn:Hle; [|reflexivity].
    apply Qle_bool_iff in Hle; nra.
  - destruct Hin as [<- | [<- | [<- | []]]]; discriminate.
Qed.

Lemma failure_error_shape_witness :
  random_ok draws_low
  /\ shouldFail draws_low = true
  /\ exists e,
       error (outcome mount sample_file standard_options sample_clock draws_low)
         = Some e
       /\ shows_error_confidence e = true.
Proof.
  split; [exact draws_low_ok|].
  split; [reflexivity|].
  destruct (failure_error_shape mount sample_file standard_options
              sample_clock draws_low draws_low_ok eq_refl)
    as [e [_ [_ [He [_ [_ [_ [_ [_ [_ [Hshow _]]]]]]]]]]].
  exists e; split; [exact He | exact Hshow].
Defined.

(** ** Results *)

Lemma result_of_job : forall h file options clock rand r,
  result (outcome h file options clock rand) = Some r ->
  shouldFail rand = false
  /\ r = (if shouldPartialFail rand
          then set_confidence
                 (finalResult (processFile_sees h) (recognize file) clock rand) 0.65
          else finalResult (processFile_sees h) (recognize file) clock rand).
Proof.
  intros h file options clock rand r.
  job_cases rand; cbn -[recognize finalResult]; intros Hr;
    try discriminate Hr; injection Hr as <-; split; reflexivity.
Qed.

Lemma midi_data_length : forall h file options clock rand r,
  result (outcome h file options clock rand) = Some r ->
  List.length (ProcessingResult.midiData r) = 114%nat.
Proof.
  intros h file options clock rand r Hr.
  destruct (result_of_job h file options clock rand r Hr) as [_ ->].
  destruct (shouldPartialFail rand);
    cbn [ProcessingResult.midiData set_confidence finalResult];
    unfold mockMidiData;
    rewrite length_map, length_app, length_map, length_seq; reflexivity.
Qed.

(** The MIDI data of every result is 114 bytes long, each between 0 and 255,
    and starts with the fourteen bytes of the header chunk. *)
Theorem midi_data_shape :
  forall h file options clock rand r,
    result (outcome h file options clock rand) = Some r ->
    List.length (ProcessingResult.midiData r) = 114%nat
    /\ firstn 14 (ProcessingResult.midiData r)
       = [77; 84; 104; 100; 0; 0; 0; 6; 0; 1; 0; 2; 1; 224]
    /\ Forall (fun b => 0 <= b < 256) (ProcessingResult.midiData r).
Proof.
  intros h file options clock rand r Hr.
  destruct (result_of_job h file options clock rand r Hr) as [_ ->].
  assert (Hdata : ProcessingResult.midiData
                    (if shouldPartialFail rand
                     then set_confidence
                            (finalResult (processFile_sees h) (recognize file) clock rand) 0.65
                     else finalResult (processFile_sees h) (recognize file) clock rand)
                  = mockMidiData rand)
    by (destruct (shouldPartialFail rand); reflexivity).
  rewrite Hdata; unfold mockMidiData.
  split; [|split].
  - rewrite length_map, length_app, length_map, length_seq; reflexivity.
  - reflexivity.
  - apply Forall_map, Forall_forall; intros b _.
    apply Z.mod_pos_bound; lia.
Qed.

Lemma midi_data_shape_witness :
  exists r,
    result (outcome mount sample_file standard_options sample_clock draws_half)
      = Some r
    /\ List.length (ProcessingResult.midiData r) = 114%nat
    /\ nth 14 (ProcessingResult.midiData r) 0 = 128.
Proof.
  eexists; split; [reflexivity|].
  split; [|reflexivity].
  eapply (midi_data_shape mount sample_file standard_options sample_clock
            draws_half); reflexivity.
Defined.

Lemma replace_non_alnum_chars : forall s,
  Forall slug_char (list_ascii_of_string (replace_non_alnum s)).
Proof.
  induction s as [|c s IH]; [constructor|].
  cbn [replace_non_alnum list_ascii_of_string]; constructor; [|exact IH].
  unfold slug_char; destruct (is_a_z_0_9 c) eqn:Hc; [left; exact Hc | now right].
Qed.

Lemma replace_non_alnum_length : forall s,
  String.length (replace_non_alnum s) = String.length s.
Proof.
  induction s as [|c s IH]; [reflexivity|].
  cbn [replace_non_alnum String.length]; now rewrite IH.
Qed.

Lemma toLowerCase_length : forall s,
  String.length (toLowerCase s) = String.length s.
Proof.
  induction s as [|c s IH]; [reflexivity|].
  cbn [toLowerCase String.length]; now rewrite IH.
Qed.

(** The file name of every result is a slug followed by the extension
    [.mid]; the slug is as long as the title and holds nothing but lower-case
    letters, digits and hyphens. *)
Theorem result_file_name_is_a_slug :
  forall h file options clock rand r,
    result (outcome h file options clock rand) = Some r ->
    exists slug,
      ProcessingResult.fileName r = (slug ++ ".mid")%string
      /\ Forall slug_char (list_ascii_of_string slug)
      /\ String.length slug = String.length (ProcessingResult.title r).
Proof.
  intros h file options clock rand r Hr.
  destruct (result_of_job h file options clock rand r Hr) as [_ ->].
  exists (replace_non_alnum (toLowerCase (rec_title (recognize file)))).
  split; [destruct (shouldPartialFail rand); reflexivity|].
  split; [apply replace_non_alnum_chars|].
  rewrite replace_non_alnum_length, toLowerCase_length.
  destruct (shouldPartialFail rand); reflexivity.
Qed.

Lemma result_file_name_is_a_slug_witness :
  exists r,
    result (outcome mount sample_file standard_options sample_clock draws_half)
      = Some r
    /\ ProcessingResult.fileName r = "two-part-invention.mid"%string
    /\ exists slug,
         ProcessingResult.fileName r = (slug ++ ".mid")%string
         /\ String.length slug = String.length (ProcessingResult.title r).
Proof.
  eexists; split; [reflexivity|].
  split; [reflexivity|].
  destruct (result_file_name_is_a_slug mount sample_file standard_options
              sample_clock draws_half _ eq_refl) as [slug [Hname [_ Hlen]]].
  exists slug; split; [exact Hname | exact Hlen].
Defined.

Lemma recognize_confidence_values : forall file,
  In (rec_confidence (recognize file)) [0.95; 0.92; 0.90; 0.88; 0.91; 0.85]%Q.
Proof.
  intros file; unfold recognize.
  repeat match goal with
         | |- context [if ?c then _ else _] => destruct c
         end; cbn; auto 10.
Qed.

(** The badge of a result is green after a success, with a figure from 85 to
    95, and yellow with the figure 65 after a partial success; it is never
    red. *)
Theorem confidence_badge_of_result :
  forall h file options clock rand r,
    result (outcome h file options clock rand) = Some r ->
    (status (outcome h file options clock rand) = Status.success
     /\ confidence_badge (ProcessingResult.confidence r) = green
     /\ 85 <= confidence_percent (ProcessingResult.confidence r) <= 95)
    \/ (status (outcome h file options clock rand) = Status.partial_success
        /\ confidence_badge (ProcessingResult.confidence r) = yellow
        /\ confidence_percent (ProcessingResult.confidence r) = 65).
Proof.
  intros h file options clock rand r.
  pose proof (recognize_confidence_values file) as Hvals.
  job_cases rand; cbn -[recognize]; intros Hr; try discriminate Hr;
    injection Hr as <-.
  - right; repeat split; reflexivity.
  - left; split; [reflexivity|].
    cbn -[recognize].
    destruct Hvals as [<- | [<- | [<- | [<- | [<- | [<- | []]]]]]];
      (split; [reflexivity | split; discriminate]).
Qed.

Lemma confidence_badge_of_result_witness :
  exists r,
    result (outcome mount sample_file standard_options sample_clock draws_partial)
      = Some r
    /\ confidence_badge (ProcessingResult.confidence r) = yellow.
Proof.
  eexists; split; [reflexivity|].
  destruct (confidence_badge_of_result mount sample_file standard_options
              sample_clock draws_partial _ eq_refl)
    as [[Hs _] | [_ [Hb _]]]; [discriminate Hs | exact Hb].
Defined.

(** ** Phases, labels and timers *)

(** A call publishes the statuses uploading (twice), analyzing, processing
    and generating, in this order, and then one terminal status; it
    publishes one progress value in the upload phase after the initial 0,
    three in the analysis phase, four in the processing phase and two in the
    generation phase. *)
Theorem phases_in_order :
  forall h file options clock rand,
    published_status (submit h file options clock rand)
    = [ Status.uploading; Status.uploading; Status.analyzing;
        Status.processing; Status.generating;
        status (outcome h file options clock rand) ]
    /\ Status.terminal (status (outcome h file options clock rand)) = true
    /\ progress_log (submit h file options clock rand) (status (state h))
       = [ (Status.uploading, 0); (Status.uploading, 5);
           (Status.analyzing, 15); (Status.analyzing, 25); (Status.analyzing, 35);
           (Status.processing, 55); (Status.processing, 70);
           (Status.processing, 80); (Status.processing, 85);
           (Status.generating, 95); (Status.generating, 100) ].
Proof.
  intros h file options clock rand.
  job_cases rand; repeat split; reflexivity.
Qed.

Lemma awaited_of_call : forall h file options clock rand,
  awaited (submit h file options clock rand)
  = inject_Z 800
    :: map (fun d => inject_Z d * timeMultiplier options)%Q
         [1200; 1500; 1000; 2000; 1500; 1000; 800; 1200; 500].
Proof.
  intros h file options clock rand.
  job_cases rand; reflexivity.
Qed.

(** The timers of a call add up to 800 ms plus 10700 ms times the
    multiplier of the mode: the wait of the upload stage is not scaled.  The
    estimate published at the start scales all ten stages, so it exceeds
    the time the call waits by 800 ms times the multiplier less one: by
    nothing in standard mode, 400 ms in enhanced mode and 800 ms in manual
    assist mode. *)
Theorem estimate_exceeds_waiting_time :
  forall h file options clock rand,
    (Qsum (awaited (submit h file options clock rand))
     == 800 + 10700 * timeMultiplier options)%Q
    /\ (totalTime options - Qsum (awaited (submit h file options clock rand))
        == match ProcessingOptions.processingMode options with
           | Mode.standard => 0
           | Mode.enhanced => 400
           | Mode.manual_assist => 800
           end)%Q.
Proof.
  intros h file options clock rand.
  rewrite awaited_of_call.
  unfold totalTime, timeMultiplier.
  destruct (ProcessingOptions.processingMode options); split; reflexivity.
Qed.

Lemma currentStep_run : forall us st,
  published_steps us = [] -> currentStep (run us st) = currentStep st.
Proof.
  induction us as [|u us IH]; intros st Hnone; [reflexivity|].
  change (run (u :: us) st) with (run us (apply_update st u)).
  destruct u; try (rewrite IH; [reflexivity | exact Hnone]).
  discriminate Hnone.
Qed.

(** The label of the upload stage is never published: a call publishes the
    labels of the nine later stages, one each, and until the first of them
    (through its first ten updates, the whole upload stage) the current step
    is the one the hook showed before the call. *)
Theorem upload_label_is_never_shown :
  forall h file options clock rand,
    published_steps (submit h file options clock rand)
    = map step (skipn 1 baseSteps)
    /\ ~ In (step (baseStep 0)) (published_steps (submit h file options clock rand))
    /\ (forall n, (n <= 10)%nat ->
          currentStep (state_at (submit h file options clock rand) (state h) n)
          = currentStep (state h)).
Proof.
  intros h file options clock rand.
  assert (Hsteps : published_steps (submit h file options clock rand)
                   = map step (skipn 1 baseSteps))
    by (job_cases rand; reflexivity).
  split; [exact Hsteps|].
  split.
  - rewrite Hsteps; cbn.
    intros Hin; repeat (destruct Hin as [Hin|Hin]; [discriminate Hin|]).
    exact Hin.
  - intros n Hn; unfold state_at.
    apply currentStep_run.
    job_cases rand;
      do 11 (destruct n as [|n]; [reflexivity|]); lia.
Qed.

Lemma upload_label_is_never_shown_witness :
  (9 <= 10)%nat
  /\ status (state_at
               (submit after_one_job sample_file standard_options sample_clock draws_half)
               (state after_one_job) 9) = Status.uploading
  /\ currentStep
       (state_at
          (submit after_one_job sample_file standard_options sample_clock draws_half)
          (state after_one_job) 9)
     = "Finalizing and optimizing..."%string.
Proof.
  split; [lia|].
  split; [reflexivity|].
  destruct (upload_label_is_never_shown after_one_job sample_file
              standard_options sample_clock draws_half) as [_ [_ Hkeep]].
  rewrite (Hkeep 9%nat ltac:(lia)).
  reflexivity.
Defined.

Lemma estimate_after_start : forall h file options clock rand n,
  (6 <= n)%nat ->
  estimatedTime (state_at (submit h file options clock rand) (state h) n)
  = totalTime options.
Proof.
  intros h file options clock rand n Hn.
  assert (Hsplit : exists rest,
            submit h file options clock rand
            = (prologue ++ [setEstimatedTime (totalTime options)]) ++ rest
            /\ Forall (fun u => forall st',
                         estimatedTime st' = totalTime options ->
                         estimatedTime (apply_update st' u) = totalTime options)
                 rest).
  { job_cases rand; eexists; (split; [reflexivity|]);
      repeat constructor; intros st' Hst'; exact Hst'. }
  destruct Hsplit as [rest [-> Hkeep]].
  unfold state_at.
  rewrite firstn_app, firstn_all2 by exact Hn.
  rewrite run_app.
  apply (state_at_invariant (fun st' => estimatedTime st' = totalTime options));
    [exact Hkeep | reflexivity].
Qed.

(** Once the estimate is set, the line under the title of the status panel
    reads the same number of seconds at every moment of the job at which it
    is shown, up to the last stage and past a partial success: 12 in
    standard mode, 18 in enhanced mode, 23 in manual assist mode.  Within a
    job it is hidden only by a success or an error. *)
Theorem eta_line_is_constant :
  forall h file options clock rand n,
    (6 <= n)%nat ->
    eta_line (state_at (submit h file options clock rand) (state h) n)
    = match status (state_at (submit h file options clock rand) (state h) n) with
      | Status.idle | Status.success | Status.error => eta_nothing
      | _ => eta_remaining
               match ProcessingOptions.processingMode options with
               | Mode.standard => 12
               | Mode.enhanced => 18
               | Mode.manual_assist => 23
               end
      end.
Proof.
  intros h file options clock rand n Hn.
  unfold eta_line.
  rewrite (estimate_after_start h file options clock rand n Hn).
  unfold totalTime, timeMultiplier.
  destruct (status (state_at (submit h file options clock rand) (state h) n));
    destruct (ProcessingOptions.processingMode options); reflexivity.
Qed.

Lemma eta_line_is_constant_witness :
  (6 <= 46)%nat
  /\ eta_line (outcome mount sample_file enhanced_options_at_90 sample_clock draws_partial)
     = eta_remaining 18.
Proof.
  split; [lia|].
  pose proof (eta_line_is_constant mount sample_file enhanced_options_at_90
                sample_clock draws_partial 46 ltac:(lia)) as H.
  exact H.
Defined.

(** * The player *)

Lemma Qle_bool_false : forall x y, Qle_bool x y = false -> (y < x)%Q.
Proof.
  intros x y H.
  apply Qnot_le_lt; intros Hle.
  apply Qle_bool_iff in Hle; congruence.
Qed.

Lemma Math_max_spec : forall x y,
  (x <= Math_max x y)%Q /\ (y <= Math_max x y)%Q
  /\ (Math_max x y = x \/ Math_max x y = y).
Proof.
  intros x y; unfold Math_max.
  destruct (Qle_bool x y) eqn:H.
  - apply Qle_bool_iff in H; repeat split; auto; lra.
  - apply Qle_bool_false in H; repeat split; auto; lra.
Qed.

Lemma Math_min_spec : forall x y,
  (Math_min x y <= x)%Q /\ (Math_min x y <= y)%Q
  /\ (Math_min x y = x \/ Math_min x y = y).
Proof.
  intros x y; unfold Math_min.
  destruct (Qle_bool x y) eqn:H.
  - apply Qle_bool_iff in H; repeat split; auto; lra.
  - apply Qle_bool_false in H; repeat split; auto; lra.
Qed.

Lemma tick_in_range : forall st,
  MidiPlayer.in_range st -> MidiPlayer.in_range (MidiPlayer.tick st).
Proof.
  intros st [Hlo [Hhi [Hd Hs]]]; unfold MidiPlayer.tick, MidiPlayer.in_range.
  destruct (Qle_bool _ _) eqn:Hend.
  - destruct (MidiPlayer.loop st); cbn; rewrite Hd; repeat split; lra.
  - apply Qle_bool_false in Hend; cbn; repeat split; try assumption; lra.
Qed.

Lemma act_in_range : forall st a,
  MidiPlayer.in_range st -> MidiPlayer.offered st a ->
  MidiPlayer.in_range (MidiPlayer.act st a).
Proof.
  intros st a Hin Hoff.
  destruct a; cbn [MidiPlayer.act]; try exact Hin.
  - unfold MidiPlayer.interval.
    destruct (MidiPlayer.isPlaying st); [now apply tick_in_range | exact Hin].
  - destruct Hin as [_ [_ [Hd Hs]]]; destruct Hoff as [Hlo Hhi].
    repeat split; assumption.
  - destruct Hin as [Hlo [Hhi [Hd Hs]]].
    unfold MidiPlayer.in_range; cbn.
    destruct (Math_max_spec 0 (MidiPlayer.currentTime st - 10000))
      as [H0 [H1 [Heq | Heq]]]; rewrite Heq in *;
      repeat split; try assumption; lra.
  - destruct Hin as [Hlo [Hhi [Hd Hs]]].
    unfold MidiPlayer.in_range; cbn.
    destruct (Math_min_spec (MidiPlayer.duration st * 1000)
                (MidiPlayer.currentTime st + 10000))
      as [H0 [H1 [Heq | Heq]]]; rewrite Heq in *;
      repeat split; try assumption; lra.
  - destruct Hin as [Hlo [Hhi [Hd Hs]]].
    unfold MidiPlayer.in_range; cbn; rewrite Hd; repeat split; lra.
  - destruct Hin as [Hlo [Hhi [Hd _]]].
    unfold MidiPlayer.in_range; cbn; repeat split; try assumption.
    cbn in Hoff.
    repeat (destruct Hoff as [<- | Hoff]; [reflexivity|]).
    destruct Hoff.
Qed.

(** Whatever the listener does with the controls, and however long the
    interval runs, the position of the player stays between 0 and the end of
    the piece, which stays at three minutes, and the speed stays
    positive. *)
Theorem player_position_stays_on_the_slider :
  forall st, MidiPlayer.reachable st -> MidiPlayer.in_range st.
Proof.
  induction 1 as [|st a _ IH Hoff].
  - unfold MidiPlayer.in_range; cbn; repeat split; lra.
  - now apply act_in_range.
Qed.

Lemma player_position_stays_on_the_slider_witness :
  MidiPlayer.reachable
    (MidiPlayer.act (MidiPlayer.act MidiPlayer.initial MidiPlayer.SkipForward)
       (MidiPlayer.SetSpeed 1.5))
  /\ (MidiPlayer.currentTime
        (MidiPlayer.act (MidiPlayer.act MidiPlayer.initial MidiPlayer.SkipForward)
           (MidiPlayer.SetSpeed 1.5)) <= 180000)%Q.
Proof.
  assert (Hreach : MidiPlayer.reachable
            (MidiPlayer.act (MidiPlayer.act MidiPlayer.initial MidiPlayer.SkipForward)
               (MidiPlayer.SetSpeed 1.5))).
  { apply MidiPlayer.reach_act;
      [apply MidiPlayer.reach_act; [constructor | exact I] | cbn; auto 10]. }
  split; [exact Hreach|].
  destruct (player_position_stays_on_the_slider _ Hreach) as [_ [Hhi [Hd _]]].
  rewrite Hd in Hhi; exact Hhi.
Defined.

Lemma intervals_stopped : forall n st,
  MidiPlayer.isPlaying st = false -> MidiPlayer.intervals n st = st.
Proof.
  induction n as [|n IH]; intros st Hst; [reflexivity|].
  cbn [MidiPlayer.intervals]; unfold MidiPlayer.interval; rewrite Hst.
  now apply IH.
Qed.

(** Without loop, a playing player stops at the end of the piece: once
    enough ticks of the interval have passed to cover what is left at the
    current speed (each tick advances 100 ms times the speed), playback is
    off and the position is the end of the piece, and they stay so. *)
Theorem playback_stops_at_the_end :
  forall n st,
    MidiPlayer.in_range st ->
    MidiPlayer.isPlaying st = true ->
    MidiPlayer.loop st = false ->
    (1 <= n)%nat ->
    (MidiPlayer.duration st * 1000 - MidiPlayer.currentTime st
     <= inject_Z (Z.of_nat n) * (100 * MidiPlayer.speed st))%Q ->
    MidiPlayer.isPlaying (MidiPlayer.intervals n st) = false
    /\ MidiPlayer.currentTime (MidiPlayer.intervals n st)
       = (MidiPlayer.duration st * 1000)%Q.
Proof.
  induction n as [|n IH]; intros st Hin Hplay Hloop Hn Hleft; [lia|].
  cbn [MidiPlayer.intervals]; unfold MidiPlayer.interval; rewrite Hplay.
  pose proof (tick_in_range st Hin) as Hin'.
  unfold MidiPlayer.tick in *; rewrite Hloop in *.
  destruct (Qle_bool (MidiPlayer.duration st * 1000)
              (MidiPlayer.currentTime st + 100 * MidiPlayer.speed st)) eqn:Hend.
  - rewrite intervals_stopped by reflexivity.
    split; reflexivity.
  - apply Qle_bool_false in Hend.
    assert (Hsucc : (inject_Z (Z.of_nat (S n)) == inject_Z (Z.of_nat n) + 1)%Q).
    { rewrite Nat2Z.inj_succ; unfold Z.succ; rewrite inject_Z_plus; reflexivity. }
    rewrite Hsucc in Hleft.
    destruct n as [|n].
    + exfalso; change (inject_Z (Z.of_nat 0)) with 0%Q in Hleft; lra.
    + set (st' := MidiPlayer.with_currentTime st
                    (MidiPlayer.currentTime st + 100 * MidiPlayer.speed st)) in *.
      destruct (IH st' Hin' Hplay Hloop ltac:(lia)) as [Hoff Hpos].
      * cbn [st' MidiPlayer.with_currentTime MidiPlayer.duration
             MidiPlayer.currentTime MidiPlayer.speed].
        set (k := inject_Z (Z.of_nat (S n))) in *.
        set (d := (100 * MidiPlayer.speed st)%Q) in *.
        nra.
      * split; [exact Hoff | exact Hpos].
Qed.

Lemma playback_stops_at_the_end_witness :
  (1 <= 50)%nat
  /\ MidiPlayer.isPlaying
       (MidiPlayer.intervals 50
          (MidiPlayer.mkState true 170000 180 0.7 2 false false)) = false
  /\ MidiPlayer.isPlaying
       (MidiPlayer.intervals 49
          (MidiPlayer.mkState true 170000 180 0.7 2 false false)) = true.
Proof.
  split; [lia|].
  split; [|reflexivity].
  apply (playback_stops_at_the_end 50
           (MidiPlayer.mkState true 170000 180 0.7 2 false false)).
  - unfold MidiPlayer.in_range; cbn; repeat split; lra.
  - reflexivity.
  - reflexivity.
  - lia.
  - vm_compute; discriminate.
Defined.

(** With loop, playback never stops by itself: after any number of ticks
    the player is still playing, and after each tick its position is
    strictly before the end of the piece (a tick that would reach the end
    goes back to 0). *)
Theorem looping_playback_never_stops :
  forall n st,
    MidiPlayer.in_range st ->
    MidiPlayer.isPlaying st = true ->
    MidiPlayer.loop st = true ->
    MidiPlayer.isPlaying (MidiPlayer.intervals n st) = true
    /\ ((1 <= n)%nat ->
        (MidiPlayer.currentTime (MidiPlayer.intervals n st)
         < MidiPlayer.duration st * 1000)%Q).
Proof.
  induction n as [|n IH]; intros st Hin Hplay Hloop.
  - split; [exact Hplay | lia].
  - cbn [MidiPlayer.intervals]; unfold MidiPlayer.interval; rewrite Hplay.
    pose proof (tick_in_range st Hin) as Hin'.
    assert (Hkeep : MidiPlayer.isPlaying (MidiPlayer.tick st) = true
                    /\ MidiPlayer.loop (MidiPlayer.tick st) = true
                    /\ MidiPlayer.duration (MidiPlayer.tick st) = MidiPlayer.duration st
                    /\ (MidiPlayer.currentTime (MidiPlayer.tick st)
                        < MidiPlayer.duration st * 1000)%Q).
    { destruct Hin as [_ [_ [Hd _]]].
      unfold MidiPlayer.tick; rewrite Hloop.
      destruct (Qle_bool _ _) eqn:Hend; cbn; repeat split; try assumption.
      - rewrite Hd; reflexivity.
      - now apply Qle_bool_false in Hend. }
    destruct Hkeep as [Hplay' [Hloop' [Hd' Hlt]]].
    destruct (IH (MidiPlayer.tick st) Hin' Hplay' Hloop') as [Hon Hbefore].
    split; [exact Hon|].
    intros _.
    destruct n as [|n]; [exact Hlt|].
    rewrite <- Hd'; apply Hbefore; lia.
Qed.

Lemma looping_playback_never_stops_witness :
  MidiPlayer.isPlaying
    (MidiPlayer.intervals 60
       (MidiPlayer.mkState true 170000 180 0.7 2 true false)) = true
  /\ (MidiPlayer.currentTime
        (MidiPlayer.intervals 50
           (MidiPlayer.mkState true 170000 180 0.7 2 true false)) == 0)%Q.
Proof.
  split; [|reflexivity].
  apply (looping_playback_never_stops 60
           (MidiPlayer.mkState true 170000 180 0.7 2 true false)).
  - unfold MidiPlayer.in_range; cbn; repeat split; lra.
  - reflexivity.
  - reflexivity.
Defined.

(** Skipping ten seconds forward and then back returns to the same position
    when at least ten seconds of the piece are left, and skipping back and
    then forward when at least ten seconds have been played; at the two ends
    the skips stop at the end of the piece and at 0. *)
Theorem skips_undo_each_other :
  forall st,
    MidiPlayer.in_range st ->
    ((MidiPlayer.currentTime st + 10000 <= MidiPlayer.duration st * 1000)%Q ->
     (MidiPlayer.currentTime (MidiPlayer.skipBackward (MidiPlayer.skipForward st))
      == MidiPlayer.currentTime st)%Q)
    /\ ((10000 <= MidiPlayer.currentTime st)%Q ->
        (MidiPlayer.currentTime (MidiPlayer.skipForward (MidiPlayer.skipBackward st))
         == MidiPlayer.currentTime st)%Q)
    /\ ((MidiPlayer.duration st * 1000 <= MidiPlayer.currentTime st + 10000)%Q ->
        (MidiPlayer.currentTime (MidiPlayer.skipForward st)
         == MidiPlayer.duration st * 1000)%Q)
    /\ ((MidiPlayer.currentTime st <= 10000)%Q ->
        (MidiPlayer.currentTime (MidiPlayer.skipBackward st) == 0)%Q).
Proof.
  intros st [Hlo [Hhi [Hd Hs]]].
  unfold MidiPlayer.skipBackward, MidiPlayer.skipForward;
    cbn [MidiPlayer.currentTime MidiPlayer.duration MidiPlayer.with_currentTime].
  repeat split; intros H;
    repeat match goal with
           | |- context [Math_min ?a ?b] =>
               let E := fresh "E" in
               destruct (Math_min_spec a b) as [? [? [E | E]]];
               rewrite E in *; clear E
           | |- context [Math_max ?a ?b] =>
               let E := fresh "E" in
               destruct (Math_max_spec a b) as [? [? [E | E]]];
               rewrite E in *; clear E
           | _ : context [Math_max ?a ?b] |- _ =>
               let E := fresh "E" in
               destruct (Math_max_spec a b) as [? [? [E | E]]];
               rewrite E in *; clear E
           | _ : context [Math_min ?a ?b] |- _ =>
               let E := fresh "E" in
               destruct (Math_min_spec a b) as [? [? [E | E]]];
               rewrite E in *; clear E
           end; lra.
Qed.

Lemma skips_undo_each_other_witness :
  MidiPlayer.in_range (MidiPlayer.mkState false 65000 180 0.7 1 false false)
  /\ (MidiPlayer.currentTime
        (MidiPlayer.skipBackward
           (MidiPlayer.skipForward
              (MidiPlayer.mkState false 65000 180 0.7 1 false false))) == 65000)%Q.
Proof.
  assert (Hin : MidiPlayer.in_range
                  (MidiPlayer.mkState false 65000 180 0.7 1 false false))
    by (unfold MidiPlayer.in_range; cbn; repeat split; lra).
  split; [exact Hin|].
  destruct (skips_undo_each_other _ Hin) as [Hfb _].
  apply Hfb; cbn; lra.
Defined.

Lemma two_digits : forall r,
  0 <= r < 60 ->
  padStart (Number_toString r) 2 "0"
  = String (digit (r / 10)) (String (digit (r mod 10)) EmptyString).
Proof.
  intros r Hr.
  replace r with (Z.of_nat (Z.to_nat r)) by lia.
  assert (Hn : (Z.to_nat r < 60)%nat) by lia.
  generalize dependent (Z.to_nat r); intros n Hn.
  do 60 (destruct n as [|n]; [reflexivity|]).
  lia.
Qed.

Lemma floor_of_quotient : forall n, Math_floor (inject_Z n / 60) = n / 60.
Proof.
  intros n; unfold Math_floor, Qfloor, Qdiv, Qmult, Qinv, inject_Z; cbn.
  now rewrite Z.mul_1_r.
Qed.

(** The time shown for a position that is not negative is the number of
    whole minutes, a colon, and the seconds left over written with exactly
    two digits, always below 60. *)
Theorem format_time_layout :
  forall ms,
    (0 <= ms)%Q ->
    exists minutes seconds,
      0 <= minutes /\ 0 <= seconds < 60
      /\ minutes * 60 + seconds = Math_floor (ms / 1000)
      /\ MidiPlayer.formatTime ms
         = (Number_toString minutes ++ ":"
            ++ String (digit (seconds / 10))
                 (String (digit (seconds mod 10)) EmptyString))%string.
Proof.
  intros ms Hms.
  assert (Hs : 0 <= Math_floor (ms / 1000)).
  { unfold Math_floor; change 0 with (Qfloor (inject_Z 0)).
    apply Qfloor_resp_le; change (inject_Z 0) with 0%Q.
    apply Qle_shift_div_l; [reflexivity | lra]. }
  exists (Math_floor (ms / 1000) / 60), (Math_floor (ms / 1000) mod 60).
  split; [apply Z.div_pos; lia|].
  split; [apply Z.mod_pos_bound; lia|].
  split; [pose proof (Z.div_mod (Math_floor (ms / 1000)) 60); lia|].
  unfold MidiPlayer.formatTime.
  rewrite floor_of_quotient, Z.rem_mod_nonneg by lia.
  rewrite two_digits by (apply Z.mod_pos_bound; lia).
  reflexivity.
Qed.

Lemma format_time_layout_witness :
  (0 <= 65400)%Q /\ MidiPlayer.formatTime 65400 = "1:05"%string.
Proof.
  split; [discriminate|].
  destruct (format_time_layout 65400 ltac:(discriminate))
    as [minutes [seconds [_ [_ [_ Hshape]]]]].
  reflexivity.
Defined.

(** ** The download *)

Lemma map_mod_small : forall l,
  Forall (fun b => 0 <= b < 256) l -> map (fun v => v mod 256) l = l.
Proof.
  induction 1 as [|b l Hb _ IH]; [reflexivity|].
  cbn [map]; rewrite IH, Z.mod_small by exact Hb; reflexivity.
Qed.

Lemma encoded_bytes : forall s,
  Forall (fun b => 0 <= b < 256) (TextEncoder_encode s)
  /\ List.length (TextEncoder_encode s) = String.length s.
Proof.
  induction s as [|c s [IHr IHl]]; [split; [constructor | reflexivity]|].
  unfold TextEncoder_encode in *; cbn [list_ascii_of_string map List.length String.length].
  split; [|now rewrite IHl].
  constructor; [|exact IHr].
  pose proof (nat_ascii_bounded c); lia.
Qed.

Lemma download_blob :
  forall props,
    fst (MidiPlayer.downloadMidi props) = MidiPlayer.fileName props
    /\ snd (MidiPlayer.downloadMidi props)
       = MidiPlayer.header_chunk ++ MidiPlayer.track1_head
         ++ MidiPlayer.track1_body (MidiPlayer.download_title props)
              (MidiPlayer.download_composer props)
         ++ MidiPlayer.track2_head ++ MidiPlayer.track2_body
    /\ List.length (MidiPlayer.track1_body (MidiPlayer.download_title props)
                      (MidiPlayer.download_composer props))
       = (12 + String.length (MidiPlayer.download_title props)
          + String.length (MidiPlayer.download_composer props))%nat
    /\ List.length (snd (MidiPlayer.downloadMidi props))
       = (70 + String.length (MidiPlayer.download_title props)
          + String.length (MidiPlayer.download_composer props))%nat
    /\ MidiPlayer.download_title props <> EmptyString
    /\ MidiPlayer.download_composer props <> EmptyString.
Proof.
  intros props.
  set (t := MidiPlayer.download_title props).
  set (c := MidiPlayer.download_composer props).
  destruct (encoded_bytes t) as [Htr Htl], (encoded_bytes c) as [Hcr Hcl].
  assert (Hbody : List.length (MidiPlayer.track1_body t c)
                  = (12 + String.length t + String.length c)%nat).
  { unfold MidiPlayer.track1_body.
    rewrite !length_app, Htl, Hcl; cbn [List.length]; lia. }
  assert (Hraw : snd (MidiPlayer.downloadMidi props)
                 = MidiPlayer.header_chunk ++ MidiPlayer.track1_head
                   ++ MidiPlayer.track1_body t c
                   ++ MidiPlayer.track2_head ++ MidiPlayer.track2_body).
  { unfold MidiPlayer.downloadMidi; cbn [snd]; fold t c.
    apply map_mod_small.
    unfold MidiPlayer.track1_body.
    repeat (apply Forall_app; split);
      try exact Htr; try exact Hcr;
      repeat constructor; lia. }
  split; [reflexivity|].
  split; [exact Hraw|].
  split; [exact Hbody|].
  split.
  - rewrite Hraw, !length_app, Hbody; cbn [List.length MidiPlayer.header_chunk
      MidiPlayer.track1_head MidiPlayer.track2_head MidiPlayer.track2_body]; lia.
  - subst t c; unfold MidiPlayer.download_title, MidiPlayer.download_composer,
      or_default_string.
    split.
    + destruct (option_map MidiMetadata.title (MidiPlayer.metadata props)) as [v|];
        [|discriminate].
      destruct (String.eqb v "") eqn:Hv; [discriminate|].
      now apply String.eqb_neq in Hv.
    + destruct (option_map MidiMetadata.composer (MidiPlayer.metadata props)) as [v|];
        [|discriminate].
      destruct (String.eqb v "") eqn:Hv; [discriminate|].
      now apply String.eqb_neq in Hv.
Qed.

(** The blob of a download is the header chunk, the head and body of the
    first track and the head and body of the second; with title [t] and
    composer [c] (the defaults Sheet Music and Unknown standing in for a
    missing or empty one) the first body holds 12 bytes more than [t] and
    [c] together, and the blob 70 bytes more.  The name of the download is
    the file name given to the player. *)
Theorem download_layout :
  forall props,
    fst (MidiPlayer.downloadMidi props) = MidiPlayer.fileName props
    /\ snd (MidiPlayer.downloadMidi props)
       = MidiPlayer.header_chunk ++ MidiPlayer.track1_head
         ++ MidiPlayer.track1_body (MidiPlayer.download_title props)
              (MidiPlayer.download_composer props)
         ++ MidiPlayer.track2_head ++ MidiPlayer.track2_body
    /\ List.length (MidiPlayer.track1_body (MidiPlayer.download_title props)
                      (MidiPlayer.download_composer props))
       = (12 + String.length (MidiPlayer.download_title props)
          + String.length (MidiPlayer.download_composer props))%nat
    /\ List.length (snd (MidiPlayer.downloadMidi props))
       = (70 + String.length (MidiPlayer.download_title props)
          + String.length (MidiPlayer.download_composer props))%nat
    /\ MidiPlayer.download_title props <> EmptyString
    /\ MidiPlayer.download_composer props <> EmptyString.
Proof. exact download_blob. Qed.

Lemma recognize_cases : forall file,
  In (rec_title (recognize file), rec_composer (recognize file))
    [ ("Amore Mio Aiutami", "Piero Piccioni");
      ("Piano Sonata", "Wolfgang Amadeus Mozart");
      ("Two-Part Invention", "Johann Sebastian Bach");
      ("Nocturne", "Fr" ++ e_acute ++ "d" ++ e_acute ++ "ric Chopin");
      ("Piano Sonata", "Ludwig van Beethoven");
      ("Sheet Music", "Unknown") ]%string.
Proof.
  intros file; unfold recognize.
  repeat match goal with
         | |- context [if ?c then _ else _] => destruct c
         end; cbn; auto 10.
Qed.

(** What the player offers for download is never the MIDI data of the
    result it was given: the blob is rebuilt from the title and the
    composer and is shorter than the 114 bytes of the data.  In it, neither
    track chunk declares its true length: the first declares 58 bytes and
    holds between 30 and 51, the second declares 32 and holds 28; and the
    title and composer events declare 10 and 8 bytes, which no title and no
    composer of a result has. *)
Theorem download_is_not_the_result :
  forall h file options clock rand r,
    result (outcome h file options clock rand) = Some r ->
    let props := player_props r in
    fst (MidiPlayer.downloadMidi props) = ProcessingResult.fileName r
    /\ snd (MidiPlayer.downloadMidi props) <> ProcessingResult.midiData r
    /\ (List.length (snd (MidiPlayer.downloadMidi props)) < 114)%nat
    /\ MidiPlayer.download_title props = ProcessingResult.title r
    /\ MidiPlayer.download_composer props = ProcessingResult.composer r
    /\ 30 <= Z.of_nat (List.length
                         (MidiPlayer.track1_body (MidiPlayer.download_title props)
                            (MidiPlayer.download_composer props))) <= 51
    /\ MidiPlayer.declared_length MidiPlayer.track1_head = 58
    /\ Z.of_nat (List.length MidiPlayer.track2_body) = 28
    /\ MidiPlayer.declared_length MidiPlayer.track2_head = 32
    /\ String.length (ProcessingResult.title r) <> 10%nat
    /\ String.length (ProcessingResult.composer r) <> 8%nat.
Proof.
  intros h file options clock rand r Hr props; subst props.
  pose proof (midi_data_length h file options clock rand r Hr) as Hlen.
  destruct (result_of_job h file options clock rand r Hr) as [_ Hres].
  assert (Htitle : ProcessingResult.title r = rec_title (recognize file))
    by (rewrite Hres; destruct (shouldPartialFail rand); reflexivity).
  assert (Hcomposer : ProcessingResult.composer r = rec_composer (recognize file))
    by (rewrite Hres; destruct (shouldPartialFail rand); reflexivity).
  assert (Hmeta : ProcessingResult.metadata r
                  = metadata_of (processFile_sees h) (recognize file) clock)
    by (rewrite Hres; destruct (shouldPartialFail rand); reflexivity).
  destruct (download_blob (player_props r))
    as [Hname [_ [Hbody [Htotal _]]]].
  assert (Hcases :
    MidiPlayer.download_title (player_props r) = ProcessingResult.title r
    /\ MidiPlayer.download_composer (player_props r) = ProcessingResult.composer r
    /\ (30 <= 12 + String.length (ProcessingResult.title r)
              + String.length (ProcessingResult.composer r) <= 51)%nat
    /\ String.length (ProcessingResult.title r) <> 10%nat
    /\ String.length (ProcessingResult.composer r) <> 8%nat).
  { unfold MidiPlayer.download_title, MidiPlayer.download_composer, player_props.
    cbn [MidiPlayer.metadata option_map].
    rewrite Hmeta; cbn [metadata_of MidiMetadata.title MidiMetadata.composer].
    rewrite Htitle, Hcomposer.
    pose proof (recognize_cases file) as Hin.
    repeat (destruct Hin as [Hpair | Hin];
            [injection Hpair as <- <-; cbn; repeat split; (lia || discriminate)|]).
    destruct Hin. }
  destruct Hcases as [Ht [Hc [Hrange [Ht10 Hc8]]]].
  rewrite Ht, Hc in Hbody, Htotal.
  assert (Hshort : (List.length (snd (MidiPlayer.downloadMidi (player_props r))) < 114)%nat)
    by lia.
  split; [exact Hname|].
  split; [intros Heq; rewrite Heq in Hshort; lia|].
  split; [exact Hshort|].
  split; [exact Ht|].
  split; [exact Hc|].
  split; [rewrite Ht, Hc, Hbody; lia|].
  repeat split; try reflexivity; assumption.
Qed.

Lemma download_is_not_the_result_witness :
  exists r,
    result (outcome mount sample_file standard_options sample_clock draws_half)
      = Some r
    /\ List.length (snd (MidiPlayer.downloadMidi (player_props r))) = 109%nat
    /\ List.length (ProcessingResult.midiData r) = 114%nat
    /\ snd (MidiPlayer.downloadMidi (player_props r)) <> ProcessingResult.midiData r.
Proof.
  eexists; split; [reflexivity|].
  split; [reflexivity|].
  split; [reflexivity|].
  destruct (download_is_not_the_result mount sample_file standard_options
              sample_clock draws_half _ eq_refl) as [_ [Hneq _]].
  exact Hneq.
Defined.

(** * The upload form *)

Lemma array_includes_In : forall a x, array_includes a x = true <-> In x a.
Proof.
  intros a x; unfold array_includes; rewrite existsb_exists; split.
  - intros [y [Hin Heq]]; apply String.eqb_eq in Heq; now subst.
  - intros Hin; exists x; split; [exact Hin | apply String.eqb_refl].
Qed.

(** A file passes [validateFile] exactly when its size does not exceed the
    limit (a file of exactly the limit passes) and its type is one of the
    seven listed ones; an error message comes with every rejection and with
    no acceptance, and for a file over the limit it is the one about the
    size whatever the type. *)
Theorem validate_file_accepts :
  forall maxFileSize file,
    (FileUpload.valid (FileUpload.validateFile maxFileSize file) = true
     <-> DomFile.size file <= maxFileSize
         /\ In (DomFile.type file) FileUpload.validTypes)
    /\ (FileUpload.error (FileUpload.validateFile maxFileSize file) = None
        <-> FileUpload.valid (FileUpload.validateFile maxFileSize file) = true)
    /\ (maxFileSize < DomFile.size file ->
        FileUpload.error (FileUpload.validateFile maxFileSize file)
        = Some ("File size exceeds "
                ++ Number_toString (Math_round (inject_Z maxFileSize / 1024 / 1024))
                ++ "MB limit")%string).
Proof.
  intros maxFileSize file; unfold FileUpload.validateFile.
  destruct (maxFileSize <? DomFile.size file) eqn:Hsize.
  - apply Z.ltb_lt in Hsize.
    cbn; repeat split; try discriminate; try reflexivity; intros; lia.
  - apply Z.ltb_ge in Hsize.
    destruct (array_includes FileUpload.validTypes (DomFile.type file)) eqn:Htype;
      cbn [negb FileUpload.valid FileUpload.error].
    + apply array_includes_In in Htype.
      repeat split; try reflexivity; try assumption; intros; lia.
    + repeat split; try discriminate; try (intros; lia).
      intros [_ Hin]; apply array_includes_In in Hin; congruence.
Qed.

Lemma validate_file_accepts_witness :
  FileUpload.valid
    (FileUpload.validateFile FileUpload.defaultMaxFileSize
       (DomFile.mk sample_file 10485760 "image/png")) = true
  /\ FileUpload.error
       (FileUpload.validateFile FileUpload.defaultMaxFileSize
          (DomFile.mk sample_file 10485761 "text/plain"))
     = Some "File size exceeds 10MB limit"%string.
Proof.
  destruct (validate_file_accepts FileUpload.defaultMaxFileSize
              (DomFile.mk sample_file 10485760 "image/png")) as [[_ Hacc] _].
  destruct (validate_file_accepts FileUpload.defaultMaxFileSize
              (DomFile.mk sample_file 10485761 "text/plain")) as [_ [_ Hrej]].
  split.
  - apply Hacc; split; [cbn; lia | cbn; auto].
  - rewrite Hrej by (cbn; lia); reflexivity.
Defined.

Lemma selected_file_is_valid : forall maxFileSize st,
  FileUpload.reachable maxFileSize st ->
  forall file,
    FileUpload.selectedFile st = Some file ->
    FileUpload.valid (FileUpload.validateFile maxFileSize file) = true.
Proof.
  intros maxFileSize st Hst; induction Hst as [|st e isProcessing _ IH Hen];
    intros file Hsel; [discriminate Hsel|].
  assert (Hselect : forall f st0,
            (forall file0, FileUpload.selectedFile st0 = Some file0 ->
               FileUpload.valid (FileUpload.validateFile maxFileSize file0) = true) ->
            FileUpload.selectedFile (fst (FileUpload.select maxFileSize f st0)) = Some file ->
            FileUpload.valid (FileUpload.validateFile maxFileSize file) = true).
  { intros f st0 H0; unfold FileUpload.select.
    destruct (FileUpload.valid (FileUpload.validateFile maxFileSize f)) eqn:Hv;
      cbn; intros H; [injection H as <-; exact Hv | now apply H0]. }
  destruct e; unfold FileUpload.handle in Hsel;
    try (cbn in Hsel; now apply IH).
  - unfold FileUpload.handleDrop in Hsel.
    destruct files as [|f files]; [cbn in Hsel; now apply IH|].
    refine (Hselect f _ _ Hsel); exact IH.
  - unfold FileUpload.handleFileInput in Hsel.
    destruct file0 as [f|]; [|now apply IH].
    refine (Hselect f _ _ Hsel); exact IH.
  - unfold FileUpload.handleProcess in Hsel.
    destruct (FileUpload.selectedFile st) eqn:Hnone; [discriminate Hsel|].
    cbn in Hsel; congruence.
Qed.

Lemma handed_file_is_the_selected_one :
  forall maxFileSize st e file options,
    In (FileUpload.onFileSelect file options)
       (snd (FileUpload.handle maxFileSize st e)) ->
    e = FileUpload.Process
    /\ FileUpload.selectedFile st = Some file
    /\ options = FileUpload.options st
    /\ FileUpload.selectedFile (fst (FileUpload.handle maxFileSize st e)) = None.
Proof.
  intros maxFileSize st e file options Hin.
  assert (Hselect : forall f st0,
            ~ In (FileUpload.onFileSelect file options)
                 (snd (FileUpload.select maxFileSize f st0))).
  { intros f st0; unfold FileUpload.select.
    destruct (FileUpload.valid _); cbn; [tauto|].
    intros [H|[]]; discriminate H. }
  destruct e; cbn in Hin; try contradiction.
  - destruct files as [|f files]; [contradiction | now apply Hselect in Hin].
  - destruct file0 as [f|]; [now apply Hselect in Hin | contradiction].
  - unfold FileUpload.handle, FileUpload.handleProcess in *.
    destruct (FileUpload.selectedFile st) as [f|] eqn:Hsel; [|contradiction].
    destruct Hin as [Hout|[]]; injection Hout as -> ->.
    repeat split; reflexivity.
Qed.

(** Every file the form hands to [onFileSelect] has passed [validateFile],
    and goes with the options as the form shows them; only the button
    ``Process File'' hands one over, and it clears the selection. *)
Theorem only_valid_files_are_processed :
  forall maxFileSize st e file options,
    FileUpload.reachable maxFileSize st ->
    In (FileUpload.onFileSelect file options)
       (snd (FileUpload.handle maxFileSize st e)) ->
    e = FileUpload.Process
    /\ FileUpload.selectedFile st = Some file
    /\ options = FileUpload.options st
    /\ FileUpload.valid (FileUpload.validateFile maxFileSize file) = true
    /\ FileUpload.selectedFile (fst (FileUpload.handle maxFileSize st e)) = None.
Proof.
  intros maxFileSize st e file options Hst Hin.
  destruct (handed_file_is_the_selected_one maxFileSize st e file options Hin)
    as [He [Hsel [Hopt Hclear]]].
  repeat split; try assumption.
  now apply (selected_file_is_valid maxFileSize st Hst).
Qed.

Lemma only_valid_files_are_processed_witness :
  FileUpload.reachable FileUpload.defaultMaxFileSize
    (fst (FileUpload.handle FileUpload.defaultMaxFileSize FileUpload.initial
            (FileUpload.FileInput (Some (DomFile.mk sample_file 2048 "image/png")))))
  /\ FileUpload.valid
       (FileUpload.validateFile FileUpload.defaultMaxFileSize
          (DomFile.mk sample_file 2048 "image/png")) = true.
Proof.
  assert (Hreach : FileUpload.reachable FileUpload.defaultMaxFileSize
            (fst (FileUpload.handle FileUpload.defaultMaxFileSize FileUpload.initial
                    (FileUpload.FileInput
                       (Some (DomFile.mk sample_file 2048 "image/png")))))).
  { apply (FileUpload.reach_handle _ _ _ false); [constructor | reflexivity]. }
  split; [exact Hreach|].
  apply (only_valid_files_are_processed FileUpload.defaultMaxFileSize _
           FileUpload.Process (DomFile.mk sample_file 2048 "image/png")
           (FileUpload.options FileUpload.initial) Hreach).
  cbn; auto.
Defined.

(** * The page: one job at a time *)

Lemma terminal_not_active : forall s,
  Status.terminal s = true -> Status.active s = false.
Proof. intros s; destruct s; cbn; congruence. Qed.

Lemma keeps_active_submit : forall h file options clock rand s,
  keeps_active (submit h file options clock rand) s = true.
Proof.
  intros h file options clock rand s.
  job_cases rand; reflexivity.
Qed.

(** A block of a call that keeps the status active at its awaits either
    ends the call in a terminal status, or stops at an [await] in an active
    status with the rest of the call still doing so. *)
Lemma run_block_keeps_active : forall us h,
  keeps_active us (status (state h)) = true ->
  (snd (run_block us h) = []
   /\ Status.terminal (status (state (fst (run_block us h)))) = true)
  \/ ((exists ms rest, snd (run_block us h) = await ms :: rest)
      /\ keeps_active (snd (run_block us h))
           (status (state (fst (run_block us h)))) = true).
Proof.
  induction us as [|u us IH]; intros h Hk.
  - left; split; [reflexivity | exact Hk].
  - destruct u; cbn [run_block];
      try (apply IH; exact Hk).
    right; split; [now exists ms, us | exact Hk].
Qed.

Lemma upload_of_reachable : forall st,
  App.reachable st ->
  FileUpload.reachable FileUpload.defaultMaxFileSize (App.upload st).
Proof.
  induction 1 as [|st e _ IH Hen]; [constructor|].
  destruct e as [e clock rand | k |]; cbn [App.step].
  - cbn [App.enabled] in Hen.
    pose proof (FileUpload.reach_handle FileUpload.defaultMaxFileSize
                  (App.upload st) e (App.isProcessing st) IH Hen) as Hnext.
    destruct (FileUpload.handle FileUpload.defaultMaxFileSize (App.upload st) e)
      as [upload' outputs].
    destruct outputs as [|[message | file options] [|o outputs]]; try exact Hnext.
    destruct (App.start _ _ _ _ _ _); exact Hnext.
  - destruct (App.resume _ _ _); exact IH.
  - exact IH.
Qed.

Lemma form_event_needs_no_job : forall st e,
  App.one_job_at_a_time st ->
  FileUpload.enabled (App.isProcessing st) (App.upload st) e = true ->
  App.pending st = [] /\ App.isProcessing st = false.
Proof.
  intros st e Hinv Hen; unfold App.one_job_at_a_time in Hinv.
  destruct (App.pending st) as [|rest [|rest' more]];
    [split; [reflexivity | exact Hinv] | | contradiction].
  exfalso.
  destruct Hinv as [[ms [rest' ->]] [Hk Hnone]].
  cbn [keeps_active] in Hk; apply andb_prop in Hk; destruct Hk as [Hactive _].
  unfold App.isProcessing in Hen; rewrite Hactive in Hen.
  destruct e; cbn in Hen; try discriminate Hen;
    rewrite Hnone, andb_false_r in Hen; discriminate Hen.
Qed.

Lemma step_keeps_one_job : forall st e,
  App.one_job_at_a_time st ->
  App.enabled st e = true ->
  App.one_job_at_a_time (App.step st e).
Proof.
  intros st e Hinv Hen.
  destruct e as [e clock rand | k |]; cbn [App.step App.enabled] in *.
  - destruct (form_event_needs_no_job st e Hinv Hen) as [Hpending Hidle].
    destruct (FileUpload.handle FileUpload.defaultMaxFileSize (App.upload st) e)
      as [upload' outputs] eqn:Hhandle.
    assert (Hsame : App.one_job_at_a_time
                      (App.mkState (App.hook st) (App.pending st) upload')).
    { unfold App.one_job_at_a_time; cbn; rewrite Hpending; exact Hidle. }
    destruct outputs as [|[message | file options] [|o outputs]]; try exact Hsame.
    assert (Hcleared : FileUpload.selectedFile upload' = None).
    { destruct e; cbn in Hhandle;
        try (injection Hhandle as _ Hout; discriminate Hout).
      - unfold FileUpload.handleDrop, FileUpload.select in Hhandle.
        destruct files; [injection Hhandle as _ Hout; discriminate Hout|].
        destruct (FileUpload.valid _);
          injection Hhandle as _ Hout; discriminate Hout.
      - unfold FileUpload.handleFileInput, FileUpload.select in Hhandle.
        destruct file0; [|injection Hhandle as _ Hout; discriminate Hout].
        destruct (FileUpload.valid _);
          injection Hhandle as _ Hout; discriminate Hout.
      - unfold FileUpload.handleProcess in Hhandle.
        destruct (FileUpload.selectedFile (App.upload st));
          [injection Hhandle as <- _; reflexivity
          | injection Hhandle as _ Hout; discriminate Hout]. }
    unfold App.start; rewrite Hpending.
    pose proof (run_block_keeps_active
                  (submit (App.hook st) (DomFile.file file) options clock rand)
                  (App.hook st)
                  (keeps_active_submit _ _ _ _ _ _)) as Hblock.
    destruct (run_block _ (App.hook st)) as [h' rest]; cbn [fst snd] in Hblock.
    unfold App.one_job_at_a_time, App.isProcessing.
    destruct Hblock as [[-> Hterm] | [[ms [rest' ->]] Hk]];
      cbn [App.pending App.hook App.upload app].
    + now apply terminal_not_active.
    + split; [now exists ms, rest' | split; [exact Hk | exact Hcleared]].
  - unfold App.one_job_at_a_time in Hinv.
    unfold App.resume.
    destruct (App.pending st) as [|rest [|rest' more]] eqn:Hpending;
      [destruct k; discriminate Hen | | contradiction].
    destruct Hinv as [[ms [rest' ->]] [Hk Hnone]].
    destruct k as [|k]; [|destruct k; discriminate Hen].
    cbn [nth_error].
    cbn [keeps_active] in Hk; apply andb_prop in Hk; destruct Hk as [_ Hk].
    pose proof (run_block_keeps_active rest' (App.hook st) Hk) as Hblock.
    destruct (run_block rest' (App.hook st)) as [h' rest'']; cbn [fst snd] in Hblock.
    unfold App.one_job_at_a_time, App.isProcessing.
    destruct Hblock as [[-> Hterm] | [[ms' [r ->]] Hk']];
      cbn [App.pending App.hook App.upload firstn skipn app].
    + now apply terminal_not_active.
    + split; [now exists ms', r | split; [exact Hk' | exact Hnone]].
  - unfold App.one_job_at_a_time in *; unfold App.isProcessing in *.
    cbn [App.pending App.hook App.upload].
    destruct (App.pending st) as [|rest [|rest' more]];
      [rewrite state_dispatch_all; reflexivity | | contradiction].
    exfalso.
    destruct Hinv as [[ms [rest' ->]] [Hk _]].
    cbn [keeps_active] in Hk; apply andb_prop in Hk; destruct Hk as [Hactive _].
    apply terminal_not_active in Hen; congruence.
Qed.

Lemma one_job_at_a_time_holds : forall st,
  App.reachable st -> App.one_job_at_a_time st.
Proof.
  induction 1 as [|st e _ IH Hen]; [reflexivity|].
  now apply step_keeps_one_job.
Qed.

(** Through the page, [processFile] is only ever called while no call is in
    flight and the status is not one of the four active ones, and only on a
    file that has passed [validateFile] under the default limit: the form
    cannot be operated while a job is under way. *)
Theorem calls_start_only_when_idle :
  forall st e clock rand file options,
    App.reachable st ->
    App.enabled st (App.Form e clock rand) = true ->
    In (FileUpload.onFileSelect file options)
       (snd (FileUpload.handle FileUpload.defaultMaxFileSize (App.upload st) e)) ->
    App.pending st = []
    /\ App.isProcessing st = false
    /\ FileUpload.valid
         (FileUpload.validateFile FileUpload.defaultMaxFileSize file) = true.
Proof.
  intros st e clock rand file options Hst Hen Hout.
  destruct (form_event_needs_no_job st e (one_job_at_a_time_holds st Hst) Hen)
    as [Hpending Hidle].
  destruct (handed_file_is_the_selected_one FileUpload.defaultMaxFileSize
              (App.upload st) e file options Hout) as [_ [Hsel _]].
  pose proof (selected_file_is_valid FileUpload.defaultMaxFileSize
                (App.upload st) (upload_of_reachable st Hst) file Hsel) as Hvalid.
  repeat split; assumption.
Qed.

(** On the page at most one call is in flight at any time, and the status is
    one of the four active ones exactly while one is: every call started
    through the page brings the status to a terminal one when it ends. *)
Theorem processing_iff_a_call_is_in_flight :
  forall st,
    App.reachable st ->
    (List.length (App.pending st) <= 1)%nat
    /\ (App.isProcessing st = true <-> App.pending st <> []).
Proof.
  intros st Hst.
  pose proof (one_job_at_a_time_holds st Hst) as Hinv.
  unfold App.one_job_at_a_time in Hinv.
  destruct (App.pending st) as [|rest [|rest' more]]; [| |contradiction].
  - split; [cbn; lia|].
    split; [congruence | intros H; now elim H].
  - destruct Hinv as [[ms [rest' ->]] [Hk _]].
    cbn [keeps_active] in Hk; apply andb_prop in Hk; destruct Hk as [Hactive _].
    split; [cbn; lia|].
    split; [discriminate | intros _; exact Hactive].
Qed.

Lemma page_with_file_reachable : App.reachable page_with_file.
Proof. apply App.reach_step; [constructor | reflexivity]. Qed.

Lemma page_processing_reachable : App.reachable page_processing.
Proof. apply App.reach_step; [exact page_with_file_reachable | reflexivity]. Qed.

Lemma calls_start_only_when_idle_witness :
  App.reachable page_with_file
  /\ App.enabled page_with_file
       (App.Form FileUpload.Process sample_clock draws_half) = true
  /\ App.pending page_with_file = []
  /\ App.isProcessing page_with_file = false.
Proof.
  split; [exact page_with_file_reachable|].
  split; [reflexivity|].
  destruct (calls_start_only_when_idle page_with_file FileUpload.Process
              sample_clock draws_half sample_upload
              (FileUpload.options FileUpload.initial)
              page_with_file_reachable eq_refl)
    as [Hpending [Hidle _]].
  - cbn; auto.
  - split; [exact Hpending | exact Hidle].
Defined.

Lemma processing_iff_a_call_is_in_flight_witness :
  App.reachable page_processing
  /\ List.length (App.pending page_processing) = 1%nat
  /\ App.isProcessing page_processing = true
  /\ FileUpload.enabled (App.isProcessing page_processing)
       (App.upload page_processing)
       (FileUpload.FileInput (Some sample_upload)) = false.
Proof.
  split; [exact page_processing_reachable|].
  split; [reflexivity|].
  split; [|reflexivity].
  destruct (processing_iff_a_call_is_in_flight page_processing
              page_processing_reachable) as [_ [_ Hflight]].
  apply Hflight; discriminate.
Defined.

(** * The piano *)





(** A note the player sends when playback starts lights a key of the piano
    exactly when the piano is set to octave 4: the player only sends notes
    of that octave, and a key is lit by its name alone or by its name
    followed by the octave of the piano. *)
Theorem player_note_lights_a_key_only_in_octave_4 :
  forall r player octave played,
    unit_draw r ->
    In octave VirtualPiano.octaves ->
    snd (MidiPlayer.togglePlayback true r player) = Some (Some played) ->
    ((exists key,
        In key VirtualPiano.drawnKeys
        /\ VirtualPiano.isPressed
             (VirtualPiano.noteEffect (Some played) (VirtualPiano.mkState [] octave))
             key = true)
     <-> octave = 4).
Proof.
  intros r player octave played Hr Hoct Hplayed.
  unfold MidiPlayer.togglePlayback in Hplayed; cbn [snd andb] in Hplayed.
  revert Hplayed; destruct (negb (MidiPlayer.isPlaying player));
    intros Hplayed; [|discriminate Hplayed].
  injection Hplayed as Hplayed.
  pose proof (floor_of_scaled_draw r 7 Hr ltac:(lia)) as Hidx.
  change (array_get MidiPlayer.notes (Math_floor (r * inject_Z 7)) = Some played)
    in Hplayed.
  set (i := Math_floor (r * inject_Z 7)) in *.
  assert (Hi : i = 0 \/ i = 1 \/ i = 2 \/ i = 3 \/ i = 4 \/ i = 5 \/ i = 6) by lia.
  clearbody i; clear Hidx.
  cbn in Hoct.
  rewrite <- existsb_exists.
  destruct Hi as [-> | [-> | [-> | [-> | [-> | [-> | ->]]]]]];
    cbn in Hplayed; injection Hplayed as <-;
    destruct Hoct as [<- | [<- | [<- | [<- | [<- | []]]]]];
    vm_compute; split; intros H; (reflexivity || discriminate H).
Qed.

Lemma player_note_lights_a_key_only_in_octave_4_witness :
  unit_draw 0.5
  /\ snd (MidiPlayer.togglePlayback true 0.5 MidiPlayer.initial) = Some (Some "F4"%string)
  /\ VirtualPiano.isPressed
       (VirtualPiano.noteEffect (Some "F4"%string) (VirtualPiano.mkState [] 4)) "F"
     = true
  /\ ~ (exists key,
          In key VirtualPiano.drawnKeys
          /\ VirtualPiano.isPressed
               (VirtualPiano.noteEffect (Some "F4"%string) (VirtualPiano.mkState [] 5))
               key = true).
Proof.
  assert (Hdraw : unit_draw 0.5) by (split; [discriminate | reflexivity]).
  split; [exact Hdraw|].
  split; [reflexivity|].
  split; [reflexivity|].
  intros Hlit.
  apply (player_note_lights_a_key_only_in_octave_4 0.5 MidiPlayer.initial 5
           "F4"%string Hdraw) in Hlit; [discriminate Hlit | cbn; auto | reflexivity].
Defined.
